(** * VADER: variable derivation recipes and the Met Office leaf kernels

    A shallow embedding of
      - [src/mo/model2geovals_varchange.cc]  (the non-linear leaf kernels),
      - [src/vader/RecipeBase.h]             (the recipe interface),
      - [src/vader/VaderParameters.h]        (the top-level parameters),
      - [src/vader/recipes/AirPressureToKappa.h]
    together with the statements of the design document that concern them.

    Numbers are IEEE-754 binary64 values ([double]) with round-to-nearest-even,
    given by the specification of floating-point arithmetic of the standard
    library.  C++ code that mutates an [atlas::FieldSet] in place is written in
    a small state-and-exception monad over the field set. *)

From Stdlib Require Import ZArith List String Bool Lia.
From Stdlib Require Import Floats.
From stdpp Require Import base option list list_numbers strings gmap.

Local Open Scope Z_scope.
Local Open Scope string_scope.

(* ===================================================================== *)
(** * C++ [double] *)
(* ===================================================================== *)

Module Double.

Definition prec : Z := 53.
Definition emax : Z := 1024.

(** A [double] is a binary64 datum: signed zero, signed infinity, NaN, or
    [(-1)^s * m * 2^e]. *)
Definition double : Type := spec_float.

Definition of_Z (z : Z) : double := binary_normalize prec emax z 0 false.

(** The decimal literal [n / 10^k], correctly rounded.  Both operands of the
    division are exact for the literals of the sources. *)
Definition decimal (n : Z) (k : Z) : double :=
  SFdiv prec emax (of_Z n) (of_Z (10 ^ k)).

Definition add : double -> double -> double := SFadd prec emax.
Definition sub : double -> double -> double := SFsub prec emax.
Definition mul : double -> double -> double := SFmul prec emax.
Definition div : double -> double -> double := SFdiv prec emax.
Definition neg : double -> double := SFopp.

(** [x < y], [x > y], [x <= y], [x >= y]: all false when an operand is NaN. *)
Definition lt (x y : double) : bool := SFltb x y.
Definition gt (x y : double) : bool := SFltb y x.
Definition le (x y : double) : bool := SFleb x y.
Definition ge (x y : double) : bool := SFleb y x.

Definition isnan (x : double) : bool :=
  match x with S754_nan => true | _ => false end.

(** [fmax] of <cmath>: the larger argument; when exactly one argument is a
    NaN the other one is returned.  Two zeros compare equal; of zeros of
    opposite sign the C standard lets the library return either, and the
    library returns the positive one, the larger in the order of IEEE 754's
    maximum: [fmax(-0.0, 0.0)] and [fmax(0.0, -0.0)] are both [+0.0]. *)
Definition fmax (x y : double) : double :=
  match x, y with
  | S754_zero sx, S754_zero sy => S754_zero (sx && sy)
  | _, _ => if ge x y || isnan y then x else y
  end.

Definition zero : double := S754_zero false.
Definition one : double := of_Z 1.
Definition hundred : double := of_Z 100.

End Double.

Import Double.

Declare Scope double_scope.
Delimit Scope double_scope with D.
Infix "+" := Double.add : double_scope.
Infix "-" := Double.sub : double_scope.
Infix "*" := Double.mul : double_scope.
Infix "/" := Double.div : double_scope.

(* ===================================================================== *)
(** * The field store ([atlas::FieldSet]) *)
(* ===================================================================== *)

(** Modelled from the spec: the field container is an external collaborator
    (atlas).  Only its access contract is used: a field set is an ordered
    collection of named fields, [get(name)] fails if the name is absent, a
    field exposes [levels()], a horizontal index space and a metadata bag with
    [has(key)] / [get(key)]. *)
Module Atlas.

(** [atlas::idx_t] *)
Definition idx_t : Type := Z.

(** Values held in a metadata bag. *)
Inductive MetaValue : Type :=
| MBool (b : bool)
| MNumber (n : Z).

Abbreviation Metadata := (gmap string MetaValue).

Definition metadata_has (md : Metadata) (key : string) : bool :=
  bool_decide (is_Some (md !! key)).

Definition as_bool (v : MetaValue) : bool :=
  match v with MBool b => b | MNumber n => negb (Z.eqb n 0) end.

(** A [std::size_t] holds a number below 2^64. *)
Definition as_size_t (v : MetaValue) : Z :=
  match v with MBool b => if b then 1 else 0 | MNumber n => n mod 2 ^ 64 end.

(** [md.get(key, value)]: the two-argument getter.  [value] is an in/out
    argument: it is overwritten when the key is found and left as it was
    otherwise. *)
Definition metadata_get_bool (md : Metadata) (key : string) (value : bool)
  : bool :=
  match md !! key with Some v => as_bool v | None => value end.

Definition metadata_get_size_t (md : Metadata) (key : string) (value : Z)
  : Z :=
  match md !! key with Some v => as_size_t v | None => value end.

(** The horizontal index space of a field: the points owned by the task
    followed by its halo points. *)
Record FunctionSpace : Type := mkFunctionSpace {
  owned_points : nat;
  halo_points : nat
}.

(** A rank-2 array of doubles indexed by (horizontal point, level).  The
    views of the sources check no index, and an access outside the shape of a
    field is undefined behaviour.  The cells outside the shape stand for the
    memory around the buffer, which a read returns; a store there has no
    counterpart in the program, so a statement about a kernel is about the
    program only where every store is inside the shape of its field. *)
Definition Array2 : Type := idx_t -> idx_t -> double.

Definition array_set (a : Array2) (i j : idx_t) (x : double) : Array2 :=
  fun i' j' => if bool_decide (i' = i /\ j' = j) then x else a i' j'.

Record Field : Type := mkField {
  functionspace : FunctionSpace;
  levels : idx_t;
  data : Array2;
  metadata : Metadata
}.

Definition shape0 (f : Field) : idx_t :=
  Z.of_nat (owned_points (functionspace f) + halo_points (functionspace f)).

Definition set_data (d : Array2) (f : Field) : Field :=
  {| functionspace := functionspace f; levels := levels f;
     data := d; metadata := metadata f |}.

(** Fields are kept in insertion order: [fields[1]] is the second one. *)
Definition FieldSet : Type := list (string * Field).

Fixpoint fs_lookup (name : string) (fs : FieldSet) : option Field :=
  match fs with
  | [] => None
  | (k, f) :: rest => if decide (k = name) then Some f else fs_lookup name rest
  end.

Definition fs_has (name : string) (fs : FieldSet) : bool :=
  bool_decide (is_Some (fs_lookup name fs)).

Fixpoint fs_update (name : string) (g : Field -> Field) (fs : FieldSet)
  : FieldSet :=
  match fs with
  | [] => []
  | (k, f) :: rest =>
      if decide (k = name) then (k, g f) :: rest
      else (k, f) :: fs_update name g rest
  end.

Definition fs_index (n : nat) (fs : FieldSet) : option Field :=
  snd <$> fs !! n.

End Atlas.

Import Atlas.

(* ===================================================================== *)
(** * Execution of C++ code over a field set *)
(* ===================================================================== *)

Module Exec.

(** What a [throw] carries. *)
Inductive Exception : Type :=
| DataValidationFailed (name : string)   (* checkFieldSetContent *)
| FieldNotFound (name : string)          (* fields["name"], name absent *)
| FieldIndexOutOfRange (n : nat).        (* fields[n], n >= size *)

(** The state a kernel acts on: the field set it received by reference and
    the two [oops::Log] channels it writes to. *)
Record World : Type := mkWorld {
  w_fields : FieldSet;
  w_trace : list string;
  w_error : list string
}.

Definition set_fields (fs : FieldSet) (w : World) : World :=
  {| w_fields := fs; w_trace := w_trace w; w_error := w_error w |}.

Inductive Outcome (A : Type) : Type :=
| Returned (a : A) (w : World)
| Thrown (e : Exception) (w : World).
Arguments Returned {A} a w.
Arguments Thrown {A} e w.

Definition M (A : Type) : Type := World -> Outcome A.

Definition ret {A} (a : A) : M A := fun w => Returned a w.

Definition bind {A B} (c : M A) (k : A -> M B) : M B :=
  fun w => match c w with
           | Returned a w' => k a w'
           | Thrown e w' => Thrown e w'
           end.

Definition throw {A} (e : Exception) : M A := fun w => Thrown e w.

Declare Scope exec_scope.
Delimit Scope exec_scope with exec.
Notation "x <- c ;; k" := (bind c (fun x => k))
  (at level 20, c at level 99, k at level 200, only parsing) : exec_scope.
Notation "c ;; k" := (bind c (fun _ => k))
  (at level 100, k at level 200, right associativity, only parsing)
  : exec_scope.
Local Open Scope exec_scope.

(** [oops::Log::trace() << msg] and [oops::Log::error() << msg] *)
Definition log_trace (msg : string) : M unit :=
  fun w => Returned tt {| w_fields := w_fields w;
                          w_trace := w_trace w ++ [msg];
                          w_error := w_error w |}.

Definition log_error (msg : string) : M unit :=
  fun w => Returned tt {| w_fields := w_fields w;
                          w_trace := w_trace w;
                          w_error := w_error w ++ [msg] |}.

(** [for (x : l) body(x)] *)
Fixpoint for_each {A} (l : list A) (body : A -> M unit) : M unit :=
  match l with
  | [] => ret tt
  | x :: rest => body x ;; for_each rest body
  end.

(** [for (idx_t i = lo; i < hi; ++i) body(i)] *)
Definition for_idx (lo hi : idx_t) (body : idx_t -> M unit) : M unit :=
  for_each (seqZ lo (hi - lo)) body.

(** ** Handles on the fields of the set

    An [atlas::Field] is a reference-counted handle and an array view points
    into the field's buffer: both are modelled by the name under which the
    field sits in the set, and every access goes to the current state. *)
Definition FieldRef : Type := string.
Definition View : Type := FieldRef.

(** [fields.has(name)] *)
Definition has (name : string) : M bool :=
  fun w => Returned (fs_has name (w_fields w)) w.

(** [fields[name]] *)
Definition field (name : string) : M FieldRef :=
  fun w => match fs_lookup name (w_fields w) with
           | Some _ => Returned name w
           | None => Thrown (FieldNotFound name) w
           end.

(** [fields[n]] *)
Definition field_at (n : nat) : M FieldRef :=
  fun w => match w_fields w !! n with
           | Some (name, _) => Returned name w
           | None => Thrown (FieldIndexOutOfRange n) w
           end.

Definition deref (h : FieldRef) : M Field :=
  fun w => match fs_lookup h (w_fields w) with
           | Some f => Returned f w
           | None => Thrown (FieldNotFound h) w
           end.

Definition f_levels (h : FieldRef) : M idx_t :=
  f <- deref h ;; ret (levels f).
Definition f_shape0 (h : FieldRef) : M idx_t :=
  f <- deref h ;; ret (shape0 f).
Definition f_functionspace (h : FieldRef) : M FunctionSpace :=
  f <- deref h ;; ret (functionspace f).
Definition f_metadata (h : FieldRef) : M Metadata :=
  f <- deref h ;; ret (metadata f).

(** [make_view<double, 2>(field)] *)
Definition make_view (h : FieldRef) : M View := ret h.

(** [view(i, j)] as an rvalue *)
Definition view_get (v : View) (i j : idx_t) : M double :=
  f <- deref v ;; ret (data f i j).

(** [view(i, j) = x], for [(i, j)] inside the shape of the field.  The
    kernels that take their loop bounds from the field they write stay inside
    it; [evalRatioToMt] takes them from other fields, and what is stated about
    it assumes that the product has the cells of the loop. *)
Definition view_set (v : View) (i j : idx_t) (x : double) : M unit :=
  fun w => match fs_lookup v (w_fields w) with
           | Some f =>
               Returned tt
                 (set_fields
                    (fs_update v (set_data (array_set (data f) i j x))
                       (w_fields w)) w)
           | None => Thrown (FieldNotFound v) w
           end.

(** [view.shape(0)] *)
Definition view_shape0 (v : View) : M idx_t := f_shape0 v.

End Exec.

Import Exec.
Local Open Scope exec_scope.

(* ===================================================================== *)
(** * mo/utils.h and mo/constants.h *)
(* ===================================================================== *)

Module MoUtils.

(** [atlas::util::Config("levels", n) | Config("include_halo", b)] *)
Record Config : Type := mkConfig {
  conf_levels : idx_t;
  include_halo : bool
}.

(** Modelled from the spec: [checkFieldSetContent] of mo/utils.h is not among
    the sources.  The documented required input names are validated before
    use, and a missing field is a hard validation error: an exception that
    names the first field of the list that the set lacks. *)
Definition checkFieldSetContent (expected_fields : list string) : M unit :=
  for_each expected_fields (fun name =>
    present <- has name ;;
    if present then ret tt
    else throw (DataValidationFailed name)).

(** The number of horizontal points a loop visits. *)
Definition horizontal_size (fspace : FunctionSpace) (conf : Config) : idx_t :=
  Z.of_nat (owned_points fspace
            + (if include_halo conf then halo_points fspace else 0)%nat).

(** Modelled from the spec: [parallelFor] of mo/utils.h is not among the
    sources.  It is a map of the functor over the grid points of the index
    space, halo points included when the configuration says so, and over the
    configured number of levels; the points are independent, so any order of
    visiting them gives the same fields. *)
Definition parallelFor (fspace : FunctionSpace)
    (functor : idx_t -> idx_t -> M unit) (conf : Config) : M unit :=
  for_idx 0 (horizontal_size fspace conf) (fun i =>
    for_idx 0 (conf_levels conf) (fun j => functor i j)).

(** [mo::Constants] (mo/constants.h is not among the sources: the values are
    parameters of the kernels that use them). *)
Record Constants : Type := mkConstants {
  p_zero : double;
  grav : double;
  cp : double;
  rd : double;
  rd_over_cp : double;
  deps : double;
  Lclr : double;
  c_virtual : double
}.

(** The two functions of <cmath> that have no correctly rounded
    specification: parameters as well. *)
Record Libm : Type := mkLibm {
  pow : double -> double -> double;
  log : double -> double
}.

End MoUtils.

Import MoUtils.

(* ===================================================================== *)
(** * mo/model2geovals_varchange.cc *)
(* ===================================================================== *)

Module Mo.

Local Open Scope double_scope.

(** [ds_view.assign(value)] over the shape of the field *)
Definition setUniformValue_rank2 (field : Field) (value : double) : Field :=
  set_data (fun i j =>
              if bool_decide (0 <= i < shape0 field /\ 0 <= j < levels field)%Z
              then value else data field i j) field.

Definition initField_rank2 (field : Field) (value_init : double) : Field :=
  setUniformValue_rank2 field value_init.

Definition evalTotalMassMoistAir : M bool :=
  log_trace "[evalTotalMassMoistAir()] starting ..." ;;
  let fnames := ["m_v"; "m_ci"; "m_cl"; "m_r"; "m_t"] in
  checkFieldSetContent fnames ;;
  h_m_v <- field "m_v" ;; ds_m_v <- make_view h_m_v ;;
  h_m_ci <- field "m_ci" ;; ds_m_ci <- make_view h_m_ci ;;
  h_m_cl <- field "m_cl" ;; ds_m_cl <- make_view h_m_cl ;;
  h_m_r <- field "m_r" ;; ds_m_r <- make_view h_m_r ;;
  h_m_t <- field "m_t" ;; ds_m_t <- make_view h_m_t ;;
  h <- field "m_t" ;; fspace <- f_functionspace h ;;
  let evaluateMt (i j : idx_t) : M unit :=
    v <- view_get ds_m_v i j ;;
    ci <- view_get ds_m_ci i j ;;
    cl <- view_get ds_m_cl i j ;;
    r <- view_get ds_m_r i j ;;
    view_set ds_m_t i j (of_Z 1 + v + ci + cl + r) in
  h <- field "m_t" ;; nlev <- f_levels h ;;
  let conf := {| conf_levels := nlev; include_halo := true |} in
  parallelFor fspace evaluateMt conf ;;
  log_trace "[evalTotalMassMoistAir()] ... exit" ;;
  ret true.

(** [qx = m_x / m_t] with [m_x = vars[0]], [m_t = vars[1]] and the result in
    [vars[2]].  The number of levels is read from the second field of the
    set, [fields[1]]. *)
Definition evalRatioToMt (vars : list string) : M bool :=
  log_trace "[evalRatioToMt()] starting ..." ;;
  h0 <- field (vars !!! 0%nat) ;; ds_m_x <- make_view h0 ;;
  h1 <- field (vars !!! 1%nat) ;; ds_m_t <- make_view h1 ;;
  h2 <- field (vars !!! 2%nat) ;; ds_tfield <- make_view h2 ;;
  h <- field (vars !!! 1%nat) ;; fspace <- f_functionspace h ;;
  let evaluateRatioToMt (i j : idx_t) : M unit :=
    x <- view_get ds_m_x i j ;;
    t <- view_get ds_m_t i j ;;
    view_set ds_tfield i j (x / t) in
  h <- field_at 1 ;; nlev <- f_levels h ;;
  let conf := {| conf_levels := nlev; include_halo := true |} in
  parallelFor fspace evaluateRatioToMt conf ;;
  log_trace "[evalRatioToMt()] ... exit" ;;
  ret true.

Definition evalSpecificHumidity : M bool :=
  log_trace "[evalSpecificHumidity()] starting ..." ;;
  let fnames := ["m_v"; "m_t"; "specific_humidity"] in
  checkFieldSetContent fnames ;;
  rvalue <- evalRatioToMt fnames ;;
  log_trace "[evalSpecificHumidity()] ... exit" ;;
  ret rvalue.

Definition evalRelativeHumidity : M bool :=
  log_trace "[evalRelativeHumidity()] starting ..." ;;
  let fnames := ["specific_humidity"; "qsat"; "relative_humidity"] in
  checkFieldSetContent fnames ;;
  let cap_super_sat := false in
  h <- field "relative_humidity" ;; md <- f_metadata h ;;
  cap_super_sat <-
    (if metadata_has md "cap_super_sat" then
       h <- field "relative_humidity" ;; md <- f_metadata h ;;
       ret (metadata_get_bool md "cap_super_sat" cap_super_sat)
     else ret cap_super_sat) ;;
  h_q <- field "specific_humidity" ;; qView <- make_view h_q ;;
  h_qsat <- field "qsat" ;; qsatView <- make_view h_qsat ;;
  h_rh <- field "relative_humidity" ;; rhView <- make_view h_rh ;;
  h <- field "relative_humidity" ;; nlev <- f_levels h ;;
  let conf := {| conf_levels := nlev; include_halo := true |} in
  let evaluateRH (i j : idx_t) : M unit :=
    q <- view_get qView i j ;;
    qsat <- view_get qsatView i j ;;
    view_set rhView i j (fmax (q / qsat * decimal 1000 1) (decimal 0 1)) ;;
    rh <- view_get rhView i j ;;
    view_set rhView i j
      (if cap_super_sat && gt rh (decimal 1000 1) then decimal 1000 1
       else rh) in
  h <- field "relative_humidity" ;; fspace <- f_functionspace h ;;
  parallelFor fspace evaluateRH conf ;;
  log_trace "[evalRelativeHumidity()] ... exit" ;;
  ret true.

Definition evalTotalRelativeHumidity : M bool :=
  log_trace "[evalTotalRelativeHumidity()] starting ..." ;;
  let fnames := ["specific_humidity";
                 "mass_content_of_cloud_liquid_water_in_atmosphere_layer";
                 "mass_content_of_cloud_ice_in_atmosphere_layer"; "qrain";
                 "qsat"; "rht"] in
  checkFieldSetContent fnames ;;
  h_q <- field "specific_humidity" ;; qView <- make_view h_q ;;
  h_qcl <- field "mass_content_of_cloud_liquid_water_in_atmosphere_layer" ;;
  qclView <- make_view h_qcl ;;
  h_qci <- field "mass_content_of_cloud_ice_in_atmosphere_layer" ;;
  qciView <- make_view h_qci ;;
  h_qrain <- field "qrain" ;; qrainView <- make_view h_qrain ;;
  h_qsat <- field "qsat" ;; qsatView <- make_view h_qsat ;;
  h_rht <- field "rht" ;; rhtView <- make_view h_rht ;;
  h <- field "rht" ;; nlev <- f_levels h ;;
  let conf := {| conf_levels := nlev; include_halo := true |} in
  let evaluateRHT (i j : idx_t) : M unit :=
    q <- view_get qView i j ;;
    qcl <- view_get qclView i j ;;
    qci <- view_get qciView i j ;;
    qrain <- view_get qrainView i j ;;
    qsat <- view_get qsatView i j ;;
    view_set rhtView i j ((q + qcl + qci + qrain) / qsat * decimal 1000 1) ;;
    rht <- view_get rhtView i j ;;
    if lt rht (decimal 0 1) then view_set rhtView i j (decimal 0 1)
    else ret tt in
  h <- field "rht" ;; fspace <- f_functionspace h ;;
  parallelFor fspace evaluateRHT conf ;;
  log_trace "[evalTotalRelativeHumidity()] ... exit" ;;
  ret true.

Definition evalMassCloudIce : M bool :=
  log_trace "[evalMassCloudIce()] starting ..." ;;
  let fnames := ["m_ci"; "m_t";
                 "mass_content_of_cloud_ice_in_atmosphere_layer"] in
  checkFieldSetContent fnames ;;
  rvalue <- evalRatioToMt fnames ;;
  log_trace "[evalMassCloudIce()] ... exit" ;;
  ret rvalue.

Definition evalMassCloudLiquid : M bool :=
  log_trace "[evalMassCloudLiquid()] starting ..." ;;
  let fnames := ["m_cl"; "m_t";
                 "mass_content_of_cloud_liquid_water_in_atmosphere_layer"] in
  checkFieldSetContent fnames ;;
  rvalue <- evalRatioToMt fnames ;;
  log_trace "[evalMassCloudLiquid()] ... exit" ;;
  ret rvalue.

Definition evalMassRain : M bool :=
  log_trace "[evalMassRain()] starting ..." ;;
  let fnames := ["m_r"; "m_t"; "qrain"] in
  checkFieldSetContent fnames ;;
  rvalue <- evalRatioToMt fnames ;;
  log_trace "[evalMassRain()] ... exit" ;;
  ret rvalue.

Definition evalAirTemperature : M bool :=
  log_trace "[evalAirTemperature()] starting ..." ;;
  let fnames := ["theta"; "exner"; "air_temperature"] in
  checkFieldSetContent fnames ;;
  h_theta <- field "theta" ;; ds_theta <- make_view h_theta ;;
  h_exner <- field "exner" ;; ds_exner <- make_view h_exner ;;
  h_atemp <- field "air_temperature" ;; ds_atemp <- make_view h_atemp ;;
  h <- field "air_temperature" ;; fspace <- f_functionspace h ;;
  let evaluateAirTemp (i j : idx_t) : M unit :=
    theta <- view_get ds_theta i j ;;
    exner <- view_get ds_exner i j ;;
    view_set ds_atemp i j (theta * exner) in
  h <- field "air_temperature" ;; nlev <- f_levels h ;;
  let conf := {| conf_levels := nlev; include_halo := true |} in
  parallelFor fspace evaluateAirTemp conf ;;
  log_trace "[evalAirTemperature()] ... exit" ;;
  ret true.

Definition evalSpecificHumidityFromRH_2m : M bool :=
  log_trace "[evalSpecificHumidityFromRH_2m()] starting ..." ;;
  let fnames := ["qsat"; "relative_humidity_2m";
                 "specific_humidity_at_two_meters_above_surface"] in
  checkFieldSetContent fnames ;;
  h_qsat <- field "qsat" ;; ds_qsat <- make_view h_qsat ;;
  h_rh <- field "relative_humidity_2m" ;; ds_rh <- make_view h_rh ;;
  h_q2m <- field "specific_humidity_at_two_meters_above_surface" ;;
  ds_q2m <- make_view h_q2m ;;
  h <- field "specific_humidity_at_two_meters_above_surface" ;;
  fspace <- f_functionspace h ;;
  let evaluateSpecificHumidity_2m (i j : idx_t) : M unit :=
    rh <- view_get ds_rh i j ;;
    qsat <- view_get ds_qsat i j ;;
    view_set ds_q2m i j (rh * qsat) in
  h <- field "specific_humidity_at_two_meters_above_surface" ;;
  nlev <- f_levels h ;;
  let conf := {| conf_levels := nlev; include_halo := true |} in
  parallelFor fspace evaluateSpecificHumidity_2m conf ;;
  log_trace "[evalSpecificHumidityFromRH_2m()] ... exit" ;;
  ret true.

Section WithConstants.

Variable K : Constants.
Variable libm : Libm.

(** No call to [checkFieldSetContent] here: the fields are fetched one
    after the other. *)
Definition evalAirPressureLevels : M bool :=
  log_trace "[evalAirPressureLevels()] starting ..." ;;
  h_elmo <- field "exner_levels_minus_one" ;; ds_elmo <- make_view h_elmo ;;
  h_plmo <- field "air_pressure_levels_minus_one" ;;
  ds_plmo <- make_view h_plmo ;;
  h_t <- field "theta" ;; ds_t <- make_view h_t ;;
  h_hl <- field "height_levels" ;; ds_hl <- make_view h_hl ;;
  h_pl <- field "air_pressure_levels" ;; ds_pl <- make_view h_pl ;;
  h <- field "air_pressure_levels" ;; levels <- f_levels h ;;
  h <- field "air_pressure_levels" ;; npoints <- f_shape0 h ;;
  for_idx 0 npoints (fun jn =>
    for_idx 1 (levels - 1)%Z (fun jl =>
      plmo <- view_get ds_plmo jn jl ;;
      view_set ds_pl jn jl plmo) ;;
    elmo <- view_get ds_elmo jn (levels - 2)%Z ;;
    hl1 <- view_get ds_hl jn (levels - 1)%Z ;;
    hl2 <- view_get ds_hl jn (levels - 2)%Z ;;
    t <- view_get ds_t jn (levels - 2)%Z ;;
    view_set ds_pl jn (levels - 1)%Z
      (p_zero K * pow libm (elmo - (grav K * (hl1 - hl2)) / (cp K * t))
                           (decimal 10 1 / rd_over_cp K)) ;;
    pl <- view_get ds_pl jn (levels - 1)%Z ;;
    view_set ds_pl jn (levels - 1)%Z
      (if gt pl (decimal 0 1) then pl else deps K)) ;;
  log_trace "[evalAirPressureLevels()] ... exit" ;;
  ret true.

(** [std::size_t]: addition wraps at 2^64. *)
Definition size_t_add (a b : Z) : Z := ((a + b) mod 2 ^ 64)%Z.

(** [blindex] is declared without an initialiser: [blindex_indeterminate]
    is the value the variable happens to hold before the metadata getter
    runs. *)
Definition evalParamAParamB (blindex_indeterminate : Z) : M bool :=
  log_trace "[evalParamAParamB2()] starting ..." ;;
  let fnames := ["height"; "height_levels";
                 "air_pressure_levels_minus_one";
                 "specific_humidity";
                 "param_a"; "param_b"] in
  checkFieldSetContent fnames ;;
  let blindex := blindex_indeterminate in
  h <- field "height" ;; md <- f_metadata h ;;
  (if negb (metadata_has md "boundary_layer_index") then
     log_error ("ERROR - data validation failed "
                ++ "we expect boundary_layer_index value "
                ++ "in the meta data of the height field")
   else ret tt) ;;
  h <- field "height" ;; md <- f_metadata h ;;
  let blindex := metadata_get_size_t md "boundary_layer_index" blindex in
  h_height <- field "height" ;; heightView <- make_view h_height ;;
  h_hl <- field "height_levels" ;; heightLevelsView <- make_view h_hl ;;
  h_pl <- field "air_pressure_levels_minus_one" ;;
  pressureLevelsView <- make_view h_pl ;;
  h_q <- field "specific_humidity" ;;
  specificHumidityView <- make_view h_q ;;
  h_a <- field "param_a" ;; param_aView <- make_view h_a ;;
  h_b <- field "param_b" ;; param_bView <- make_view h_b ;;
  let exp_pmsh := Lclr K * rd K / grav K in
  npoints <- view_shape0 param_aView ;;
  for_idx 0 npoints (fun jn =>
    hl_above <- view_get heightLevelsView jn (size_t_add blindex 1) ;;
    hl_bl <- view_get heightLevelsView jn blindex ;;
    p_above <- view_get pressureLevelsView jn (size_t_add blindex 1) ;;
    p_bl <- view_get pressureLevelsView jn blindex ;;
    let t_bl := (neg (grav K) / rd K) * (hl_above - hl_bl)
                / log libm (p_above / p_bl) in
    q_bl <- view_get specificHumidityView jn blindex ;;
    let t_bl := t_bl / (decimal 10 1 + c_virtual K * q_bl) in
    height_bl <- view_get heightView jn blindex ;;
    hl_0 <- view_get heightLevelsView jn 0%Z ;;
    let t_msh := t_bl + Lclr K * (height_bl - hl_0) in
    hl_0 <- view_get heightLevelsView jn 0%Z ;;
    view_set param_aView jn 0%Z (hl_0 + t_msh / Lclr K) ;;
    p_0 <- view_get pressureLevelsView jn 0%Z ;;
    view_set param_bView jn 0%Z
      (t_msh / (pow libm p_0 exp_pmsh * Lclr K))) ;;
  log_trace "[evalParamAParamB()] ... exit" ;;
  ret true.

End WithConstants.

End Mo.

(* ===================================================================== *)
(** * oops parameters, vader/VaderParameters.h, AirPressureToKappa.h *)
(* ===================================================================== *)

Module Oops.

(** The three ways a member of an [oops::Parameters] class is declared. *)
Inductive ParameterKind : Type :=
| Required         (* oops::RequiredParameter<T> p{"key", this}          *)
| WithDefault      (* oops::Parameter<T>         p{"key", default, this} *)
| Optional.        (* oops::OptionalParameter<T> p{"key", ..., this}     *)

Record ParameterDecl : Type := mkParameter {
  param_key : string;
  param_kind : ParameterKind
}.

(** A parameters class, as the list of its members in declaration order. *)
Definition ParametersClass : Type := list ParameterDecl.

Definition is_required (p : ParameterDecl) : bool :=
  match param_kind p with Required => true | _ => false end.

Definition required_parameters (cls : ParametersClass) : list string :=
  param_key <$> filter (fun p => is_required p = true) cls.

(** The keys of a configuration that a class cannot be built without: the
    required ones that the configuration does not supply. *)
Definition missing_keys (cls : ParametersClass) (supplied : gset string)
  : list string :=
  filter (fun k => k ∉ supplied) (required_parameters cls).

(** Deserialisation of a configuration succeeds when no required key is
    missing. *)
Definition constructible (cls : ParametersClass) (supplied : gset string)
  : bool :=
  bool_decide (missing_keys cls supplied = []).

End Oops.

Module VaderParams.

Import Oops.

(** [VaderParameters]: [cookbook] has a default, [recipeParams] is optional. *)
Definition VaderParameters : ParametersClass :=
  [ {| param_key := "cookbook"; param_kind := WithDefault |};
    {| param_key := "recipe parameters"; param_kind := Optional |} ].

(** The [Name] constants of the recipe headers included by
    VaderParameters.h, none of which is among the sources. *)
Record RecipeNames : Type := mkRecipeNames {
  TempToPTemp_Name : string;
  TempToVTemp_Name : string;
  AirTemperature_A_Name : string
}.

(** The default value of [VaderParameters::cookbook]
    (a [std::map<std::string, std::vector<std::string>>]). *)
Definition default_cookbook (names : RecipeNames) : gmap string (list string) :=
  <[ "potential_temperature" := [TempToPTemp_Name names] ]>
  (<[ "virtual_temperature" := [TempToVTemp_Name names] ]>
  (<[ "air_temperature" := [AirTemperature_A_Name names] ]> ∅)).

(** [AirPressureToKappa_AParameters] *)
Definition AirPressureToKappa_AParameters : ParametersClass :=
  [ {| param_key := "recipe name"; param_kind := Required |};
    {| param_key := "kappa"; param_kind := WithDefault |} ].

(** The default of [kappa], the literal [0.28571428571428570]. *)
Definition kappa_default : double := decimal 2857142857142857 16.

(** The parameter classes of the recipes whose declaration is among the
    sources. *)
Definition recipe_parameter_classes : list (string * ParametersClass) :=
  [ ("AirPressureToKappa_A", AirPressureToKappa_AParameters) ].

End VaderParams.

(* ===================================================================== *)
(** * vader/RecipeBase.h *)
(* ===================================================================== *)

Module Vader.

(** A class derived from [RecipeBase]: the three pure virtual members it
    has to define and, for each of the two virtual members that have a body
    in the base class, its override if it declares one. *)
Record Recipe : Type := mkRecipe {
  name : string;
  ingredients : list string;
  execute : M bool;
  requiresSetup_override : option bool;
  setup_override : option (M bool)
}.

(** [virtual bool requiresSetup() { return false; }] *)
Definition requiresSetup (r : Recipe) : bool :=
  match requiresSetup_override r with
  | Some b => b
  | None => false
  end.

(** [virtual bool setup(FieldSet-pointer) { return true; }] *)
Definition setup (r : Recipe) : M bool :=
  match setup_override r with
  | Some body => body
  | None => ret true
  end.

Definition overrides_nothing (r : Recipe) : Prop :=
  requiresSetup_override r = None /\ setup_override r = None.

(** Modelled from the spec: the Executor is not among the sources.  Before
    the first execution of a unit, if [requiresSetup()] holds and [setup]
    has not yet run for this instance, [setup] is called.  The result is the
    success flag and whether [setup] was called. *)
Definition setup_phase (r : Recipe) (already_set_up : bool)
  : M (bool * bool) :=
  if requiresSetup r && negb already_set_up then
    ok <- setup r ;; ret (ok, true)
  else ret (true, false).

End Vader.

(* ===================================================================== *)
(** * Unit registry, cookbook and resolver *)
(* ===================================================================== *)

(** Modelled from the spec: the registry, the resolver and the plan are not
    among the sources (only [RecipeBase.h] and the default cookbook are).  The
    definitions of this module follow sections 3, 4.1, 4.3 and 7 of the design
    document. *)
Module Resolver.

(** The identity attributes of a transformation unit. *)
Record Unit : Type := mkUnit {
  unit_name : string;
  unit_product : string;
  unit_ingredients : list string;
  unit_requiresSetup : bool
}.

#[global] Instance Unit_eq_dec : EqDecision Unit.
Proof. solve_decision. Defined.

(** The error taxonomy. *)
Inductive Error : Type :=
| DuplicateUnit (name : string)
| UnknownUnit (name : string)
| UnresolvableVariable (v : string) (attempts : list Attempt)
| CyclicDependency (v : string) (stack : list string)
| MissingIngredientMetadata (unit_name key : string)
| ExecutionFailure (unit_name variable : string)
| MissingTrajectory
(** A candidate that was tried and the reason it failed. *)
with Attempt : Type :=
| mkAttempt (candidate : string) (reason : Error).

Inductive ErrorKind : Type :=
| KDuplicateUnit | KUnknownUnit | KUnresolvableVariable | KCyclicDependency
| KMissingIngredientMetadata | KExecutionFailure | KMissingTrajectory.

Definition kind (e : Error) : ErrorKind :=
  match e with
  | DuplicateUnit _ => KDuplicateUnit
  | UnknownUnit _ => KUnknownUnit
  | UnresolvableVariable _ _ => KUnresolvableVariable
  | CyclicDependency _ _ => KCyclicDependency
  | MissingIngredientMetadata _ _ => KMissingIngredientMetadata
  | ExecutionFailure _ _ => KExecutionFailure
  | MissingTrajectory => KMissingTrajectory
  end.

(** The kinds a resolution can end with. *)
Definition resolution_kind (k : ErrorKind) : bool :=
  match k with
  | KUnknownUnit | KUnresolvableVariable | KCyclicDependency => true
  | _ => false
  end.

(** ** 4.1 Unit registry *)

(** Modelled from the spec: [register(name, constructor)]; re-registering a
    name is [DuplicateUnit]. *)
Definition register (reg : gmap string Unit) (name : string) (u : Unit)
  : Error + gmap string Unit :=
  match reg !! name with
  | Some _ => inl (DuplicateUnit name)
  | None => inr (<[ name := u ]> reg)
  end.

(** Modelled from the spec: [create(name, config)]; an absent name is
    [UnknownUnit]. *)
Definition create (reg : gmap string Unit) (name : string) : Error + Unit :=
  match reg !! name with
  | Some u => inr u
  | None => inl (UnknownUnit name)
  end.

(** ** 4.3 Cookbook and resolver *)

(** One entry of a plan: the unit that was accepted and the variable it was
    accepted for. *)
Record Step : Type := mkStep {
  step_var : string;
  step_unit : Unit
}.

#[global] Instance Step_eq_dec : EqDecision Step.
Proof. solve_decision. Defined.

(** The resolution state of one call: the variables resolved so far and the
    working plan. *)
Record State : Type := mkState {
  resolved : gset string;
  working_plan : list Step
}.

Inductive Result (T : Type) : Type :=
| Done (t : T)
| Failed (e : Error)
| OutOfFuel.
Arguments Done {T} t.
Arguments Failed {T} e.
Arguments OutOfFuel {T}.

Definition commit (v : string) (u : Unit) (st : State) : State :=
  {| resolved := {[ v ]} ∪ resolved st;
     working_plan := working_plan st ++ [ {| step_var := v; step_unit := u |} ] |}.

Section Resolve.

(** The design says that a failed candidate is rolled back and the next one
    tried (step 4), and that a self-referential entry ends in
    [CyclicDependency] (scenario 3): which failures of a candidate end the
    whole resolution is left to [aborts]. *)
Variable aborts : Error -> bool.
Variable reg : gmap string Unit.
(** Available variables and cookbook. *)
Variable A : gset string.
Variable C : gmap string (list string).

(** Modelled from the spec: step 4, the attempt to resolve every one of the
    ingredients recursively.  Every variable in turn with [rec], threading
    the state. *)
Fixpoint resolve_all (rec : string -> State -> Result State)
    (vars : list string) (st : State) : Result State :=
  match vars with
  | [] => Done st
  | i :: rest =>
      match rec i st with
      | Done st' => resolve_all rec rest st'
      | Failed e => Failed e
      | OutOfFuel => OutOfFuel
      end
  end.

(** Modelled from the spec: step 4 for one candidate of [v].  Instantiate
    it, resolve its ingredients, and on success append the unit to the working
    plan and mark [v] resolved. *)
Definition try_candidate (rec : string -> State -> Result State)
    (v c : string) (st : State) : Result State :=
  match create reg c with
  | inl e => Failed e
  | inr u =>
      match resolve_all rec (unit_ingredients u) st with
      | Done st' => Done (commit v u st')
      | Failed e => Failed e
      | OutOfFuel => OutOfFuel
      end
  end.

(** Modelled from the spec: steps 4 and 5.  Candidates in priority order,
    first success wins.  A failed candidate leaves no trace: the next one
    starts from [st] again.  When none succeeds the failure names every
    candidate tried and its reason. *)
Fixpoint try_candidates (rec : string -> State -> Result State)
    (v : string) (cands : list string) (attempts : list Attempt)
    (st : State) : Result State :=
  match cands with
  | [] => Failed (UnresolvableVariable v (rev attempts))
  | c :: rest =>
      match try_candidate rec v c st with
      | Done st' => Done st'
      | Failed e =>
          if aborts e then Failed e
          else try_candidates rec v rest (mkAttempt c e :: attempts) st
      | OutOfFuel => OutOfFuel
      end
  end.

(** Modelled from the spec: steps 1 to 5 for one variable; [stack] holds the
    variables being resolved higher in the call stack. *)
Fixpoint resolve_variable (fuel : nat) (stack : list string) (v : string)
    (st : State) : Result State :=
  match fuel with
  | O => OutOfFuel
  | S fuel' =>
      if bool_decide (v ∈ A \/ v ∈ resolved st) then Done st
      else if bool_decide (v ∈ stack) then
        Failed (CyclicDependency v stack)
      else
        match C !! v with
        | None => Failed (UnresolvableVariable v [])
        | Some cands =>
            try_candidates (resolve_variable fuel' (v :: stack)) v cands []
              st
        end
  end.

(** The depth of the search is bounded by the number of cookbook entries:
    every variable on the stack is a distinct key of the cookbook. *)
Definition enough_fuel : nat := S (size C).

(** Modelled from the spec: the top-level call.  Every requested variable in
    turn, then the de-duplicated working plan. *)
Definition resolve (R : list string) : Result (list Step) :=
  match resolve_all (resolve_variable enough_fuel []) R
          {| resolved := ∅; working_plan := [] |} with
  | Done st => Done (remove_dups (working_plan st))
  | Failed e => Failed e
  | OutOfFuel => OutOfFuel
  end.

End Resolve.

(** The policy under which a cycle ends the resolution and every other
    failure of a candidate lets the next candidate be tried. *)
Definition cycles_abort (e : Error) : bool :=
  match e with CyclicDependency _ _ => true | _ => false end.

(** The variables the steps of a plan were accepted for, in order. *)
Definition produced (plan : list Step) : list string := step_var <$> plan.

(** The products of the units of a plan, in order. *)
Definition products (plan : list Step) : list string :=
  (fun s => unit_product (step_unit s)) <$> plan.

(** Invariant (a): no two units of the plan produce the same variable. *)
Definition unique_products (plan : list Step) : Prop :=
  NoDup (products plan).

(** Invariant (b): every ingredient of a unit is available from the start or
    is the product of an earlier unit. *)
Definition ingredient_before_product (A : gset string) (plan : list Step)
  : Prop :=
  forall (k : nat) (s : Step) (i : string),
    plan !! k = Some s -> i ∈ unit_ingredients (step_unit s) ->
    i ∈ A \/ exists (k' : nat) (s' : Step),
               (k' < k)%nat /\ plan !! k' = Some s'
               /\ unit_product (step_unit s') = i.

(** ** The invariants of a plan *)

(** No variable has two steps. *)
Definition accepted_once (plan : list Step) : Prop :=
  NoDup (produced plan).

(** Every ingredient of a step is available from the start or is the
    variable of an earlier step. *)
Definition ingredients_first (A : gset string) (plan : list Step) : Prop :=
  forall (k : nat) (s : Step) (i : string),
    plan !! k = Some s -> i ∈ unit_ingredients (step_unit s) ->
    i ∈ A \/ exists (k' : nat) (s' : Step),
               (k' < k)%nat /\ plan !! k' = Some s' /\ step_var s' = i.

(** No step produces a variable that was available before it runs. *)
Definition nothing_available_produced (A : gset string) (plan : list Step)
  : Prop :=
  forall s, s ∈ plan -> step_var s ∉ A.

(** Every step holds a unit that the cookbook lists for its variable. *)
Definition from_cookbook (reg : gmap string Unit)
    (C : gmap string (list string)) (plan : list Step) : Prop :=
  forall s, s ∈ plan ->
    exists cands c, C !! step_var s = Some cands /\ c ∈ cands
                    /\ reg !! c = Some (step_unit s).

(** A cookbook agrees with a registry when every unit it lists under a
    variable has that variable as its product. *)
Definition cookbook_consistent (reg : gmap string Unit)
    (C : gmap string (list string)) : Prop :=
  forall v cands c u,
    C !! v = Some cands -> c ∈ cands -> reg !! c = Some u ->
    unit_product u = v.

(** The state of a resolution is consistent: the resolved variables are the
    ones the working plan produces, and the working plan has the
    invariants. *)
Definition consistent (reg : gmap string Unit) (A : gset string)
    (C : gmap string (list string)) (st : State) : Prop :=
  (forall x, x ∈ resolved st <-> x ∈ produced (working_plan st))
  /\ accepted_once (working_plan st)
  /\ ingredients_first A (working_plan st)
  /\ nothing_available_produced A (working_plan st)
  /\ from_cookbook reg C (working_plan st).

(** [st'] extends [st] by steps for variables that are not on [stack]. *)
Definition extends (stack : list string) (st st' : State) : Prop :=
  exists new : list Step,
    working_plan st' = (working_plan st ++ new)%list
    /\ forall s, s ∈ new -> step_var s ∉ stack.

(** What a successful resolution of one variable guarantees. *)
Definition resolves (reg : gmap string Unit) (A : gset string)
    (C : gmap string (list string)) (stack : list string)
    (rec : string -> State -> Result State) : Prop :=
  forall i st st',
    consistent reg A C st -> rec i st = Done st' ->
    consistent reg A C st' /\ extends stack st st'
    /\ (i ∈ A \/ i ∈ resolved st').

(** What a failed one guarantees. *)
Definition fails_as_documented (rec : string -> State -> Result State) : Prop :=
  forall i st e, rec i st = Failed e -> resolution_kind (kind e) = true.

End Resolver.

(* ===================================================================== *)
(** * Concrete inputs *)
(* ===================================================================== *)

Module Scenarios.

(** A field over one grid point and one level, all of whose cells hold [x]. *)
Definition one_cell (x : double) (md : gmap string MetaValue) : Field :=
  {| functionspace := {| owned_points := 1; halo_points := 0 |};
     levels := 1;
     data := fun _ _ => x;
     metadata := md |}.

Definition world_of (fs : FieldSet) : World :=
  {| w_fields := fs; w_trace := []; w_error := [] |}.

(** Scenario 1: [theta = [300.0]], [exner = [0.95]]. *)
Definition scenario1 : World :=
  world_of [ ("theta", one_cell (of_Z 300) ∅);
             ("exner", one_cell (decimal 95 2) ∅);
             ("air_temperature", one_cell (decimal 0 1) ∅) ].

(** Scenario 4: a raw ratio of 150, with the flag set, cleared and absent. *)
Definition scenario4 (md : gmap string MetaValue) : World :=
  world_of [ ("specific_humidity", one_cell (decimal 15 1) ∅);
             ("qsat", one_cell (of_Z 1) ∅);
             ("relative_humidity", one_cell (decimal 0 1) md) ].

(** A specific humidity of [-0.0]: the raw ratio is the negative zero. *)
Definition negative_zero_humidity : World :=
  world_of [ ("specific_humidity", one_cell (S754_zero true) ∅);
             ("qsat", one_cell (of_Z 1) ∅);
             ("relative_humidity", one_cell (of_Z 7) ∅) ].

Definition cap_on : gmap string MetaValue :=
  {[ "cap_super_sat" := MBool true ]}.
Definition cap_off : gmap string MetaValue :=
  {[ "cap_super_sat" := MBool false ]}.

(** Moisture masses 0.25, 0.5, 0.125 and 0.0625. *)
Definition masses : World :=
  world_of [ ("m_v", one_cell (decimal 25 2) ∅);
             ("m_ci", one_cell (decimal 5 1) ∅);
             ("m_cl", one_cell (decimal 125 3) ∅);
             ("m_r", one_cell (decimal 625 4) ∅);
             ("m_t", one_cell (decimal 0 1) ∅) ].

(** Total water 1.5 times the saturation value, on a product field that
    carries the capping flag. *)
Definition supersaturated_total : World :=
  world_of [ ("specific_humidity", one_cell (of_Z 1) ∅);
             ("mass_content_of_cloud_liquid_water_in_atmosphere_layer",
              one_cell (decimal 25 2) ∅);
             ("mass_content_of_cloud_ice_in_atmosphere_layer",
              one_cell (decimal 25 2) ∅);
             ("qrain", one_cell (decimal 0 1) ∅);
             ("qsat", one_cell (of_Z 1) ∅);
             ("rht", one_cell (decimal 0 1) cap_on) ].

(** The six fields of [evalParamAParamB], none of which carries metadata: the
    [height] field has no [boundary_layer_index]. *)
Definition no_boundary_layer_index : World :=
  world_of [ ("height", one_cell (of_Z 10) ∅);
             ("height_levels", one_cell (of_Z 20) ∅);
             ("air_pressure_levels_minus_one", one_cell (of_Z 1000) ∅);
             ("specific_humidity", one_cell (decimal 1 2) ∅);
             ("param_a", one_cell (decimal 0 1) ∅);
             ("param_b", one_cell (decimal 0 1) ∅) ].

(** A field set without [theta]. *)
Definition no_theta : World :=
  world_of [ ("exner_levels_minus_one", one_cell (of_Z 1) ∅);
             ("air_pressure_levels_minus_one", one_cell (of_Z 1000) ∅);
             ("height_levels", one_cell (of_Z 20) ∅);
             ("air_pressure_levels", one_cell (decimal 0 1) ∅) ].

(** Values for the constants and stand-ins for the two library functions,
    for running the kernels that take them. *)
Definition sample_constants : Constants :=
  {| p_zero := of_Z 100000; grav := decimal 980665 5; cp := of_Z 1005;
     rd := decimal 28705 2; rd_over_cp := decimal 2857142857142857 16;
     deps := decimal 1 9; Lclr := decimal 65 4; c_virtual := decimal 608 3 |}.

Definition sample_libm : Libm :=
  {| pow := fun x y => Double.mul x y; log := fun x => Double.sub x (of_Z 1) |}.

(** The units of scenarios 1 and 3, and a registry that holds them. *)
Definition AirTemperature_A : Resolver.Unit :=
  {| Resolver.unit_name := "AirTemperature_A";
     Resolver.unit_product := "air_temperature";
     Resolver.unit_ingredients := ["theta"; "exner"];
     Resolver.unit_requiresSetup := false |}.

Definition SelfReferential : Resolver.Unit :=
  {| Resolver.unit_name := "SelfReferential";
     Resolver.unit_product := "x";
     Resolver.unit_ingredients := ["x"];
     Resolver.unit_requiresSetup := false |}.

Definition registry : gmap string Resolver.Unit :=
  {[ "AirTemperature_A" := AirTemperature_A;
     "SelfReferential" := SelfReferential ]}.

Definition recipe_names : VaderParams.RecipeNames :=
  {| VaderParams.TempToPTemp_Name := "TempToPTemp";
     VaderParams.TempToVTemp_Name := "TempToVTemp";
     VaderParams.AirTemperature_A_Name := "AirTemperature_A" |}.

(** Two units with the same product, listed by a cookbook under two other
    variables. *)
Definition Twin_A : Resolver.Unit :=
  {| Resolver.unit_name := "Twin_A"; Resolver.unit_product := "z";
     Resolver.unit_ingredients := []; Resolver.unit_requiresSetup := false |}.

Definition Twin_B : Resolver.Unit :=
  {| Resolver.unit_name := "Twin_B"; Resolver.unit_product := "z";
     Resolver.unit_ingredients := []; Resolver.unit_requiresSetup := false |}.

Definition twin_registry : gmap string Resolver.Unit :=
  {[ "Twin_A" := Twin_A; "Twin_B" := Twin_B ]}.

Definition twin_cookbook : gmap string (list string) :=
  {[ "x" := ["Twin_A"]; "y" := ["Twin_B"] ]}.

(** The cookbook and the registry of scenario 1. *)
Definition scenario1_cookbook : gmap string (list string) :=
  {[ "air_temperature" := ["AirTemperature_A"] ]}.

Definition scenario1_registry : gmap string Resolver.Unit :=
  {[ "AirTemperature_A" := AirTemperature_A ]}.

(** A recipe that defines the three pure virtual members and nothing else. *)
Definition plain_recipe : Vader.Recipe :=
  {| Vader.name := "AirTemperature_A";
     Vader.ingredients := ["theta"; "exner"];
     Vader.execute := Mo.evalAirTemperature;
     Vader.requiresSetup_override := None;
     Vader.setup_override := None |}.

End Scenarios.

(* ===================================================================== *)
(** * Vocabulary for the statements about kernels *)
(* ===================================================================== *)

Module ExecSpec.

(** The field [name] is in the field set of [w]. *)
Definition present (name : string) (w : World) : Prop :=
  is_Some (fs_lookup name (w_fields w)).

(** The first name of the list that the field set lacks. *)
Fixpoint first_missing (names : list string) (fs : FieldSet) : option string :=
  match names with
  | [] => None
  | n :: rest => if fs_has n fs then first_missing rest fs else Some n
  end.

(** [w0] with the buffer of the field [tgt] of [fs0] replaced by [d]. *)
Definition target_is (tgt : string) (fs0 : FieldSet) (w0 : World) (d : Array2)
  : World :=
  set_fields (fs_update tgt (set_data d) fs0) w0.

(** A functor that stores [G i j] in cell [(i, j)] of the target and touches
    nothing else. *)
Definition writes_cell (tgt : string) (fs0 : FieldSet) (w0 : World)
    (G : idx_t -> idx_t -> double) (functor : idx_t -> idx_t -> M unit) : Prop :=
  forall i j d, exists d',
    functor i j (target_is tgt fs0 w0 d) = Returned tt (target_is tgt fs0 w0 d')
    /\ d' i j = G i j
    /\ forall i' j', i' <> i \/ j' <> j -> d' i' j' = d i' j'.

(** The state of a loop over the cells: those in [Pr] hold [G], the others
    what they held in [d0]. *)
Definition visited (tgt : string) (fs0 : FieldSet) (w0 : World)
    (G : idx_t -> idx_t -> double) (d0 : Array2)
    (Pr : idx_t -> idx_t -> Prop) (w : World) : Prop :=
  exists d, w = target_is tgt fs0 w0 d
            /\ (forall i j, Pr i j -> d i j = G i j)
            /\ (forall i j, ~ Pr i j -> d i j = d0 i j).

(** A kernel that validates the names [names]: when the field set lacks one
    of them, the first missing one is reported by a validation error and the
    field set is as it was. *)
Definition validates (kernel : M bool) (names : list string) : Prop :=
  forall w n,
    first_missing names (w_fields w) = Some n ->
    exists w', kernel w = Thrown (DataValidationFailed n) w'
               /\ w_fields w' = w_fields w.

(** A kernel for which a missing field is a hard error: when the field set
    lacks one of [names], the call returns no value; it ends in an exception
    about the first missing name, that of the validation or that of the
    lookup in the field set, and the field set is as it was. *)
Definition fails_on_missing (kernel : M bool) (names : list string) : Prop :=
  forall w n,
    first_missing names (w_fields w) = Some n ->
    exists e w', kernel w = Thrown e w'
                 /\ (e = DataValidationFailed n \/ e = FieldNotFound n)
                 /\ w_fields w' = w_fields w.

(** The eleven kernels of model2geovals_varchange.cc that are called with a
    field set alone, each with the names of the fields it uses, in the order
    in which it names them. *)
Definition leaf_kernels (K : Constants) (libm : Libm) (blindex : Z)
  : list (M bool * list string) :=
  [ (Mo.evalTotalMassMoistAir, ["m_v"; "m_ci"; "m_cl"; "m_r"; "m_t"]);
    (Mo.evalSpecificHumidity, ["m_v"; "m_t"; "specific_humidity"]);
    (Mo.evalRelativeHumidity,
     ["specific_humidity"; "qsat"; "relative_humidity"]);
    (Mo.evalTotalRelativeHumidity,
     ["specific_humidity";
      "mass_content_of_cloud_liquid_water_in_atmosphere_layer";
      "mass_content_of_cloud_ice_in_atmosphere_layer"; "qrain"; "qsat";
      "rht"]);
    (Mo.evalMassCloudIce,
     ["m_ci"; "m_t"; "mass_content_of_cloud_ice_in_atmosphere_layer"]);
    (Mo.evalMassCloudLiquid,
     ["m_cl"; "m_t";
      "mass_content_of_cloud_liquid_water_in_atmosphere_layer"]);
    (Mo.evalMassRain, ["m_r"; "m_t"; "qrain"]);
    (Mo.evalAirTemperature, ["theta"; "exner"; "air_temperature"]);
    (Mo.evalAirPressureLevels K libm,
     ["exner_levels_minus_one"; "air_pressure_levels_minus_one"; "theta";
      "height_levels"; "air_pressure_levels"]);
    (Mo.evalSpecificHumidityFromRH_2m,
     ["qsat"; "relative_humidity_2m";
      "specific_humidity_at_two_meters_above_surface"]);
    (Mo.evalParamAParamB K libm blindex,
     ["height"; "height_levels"; "air_pressure_levels_minus_one";
      "specific_humidity"; "param_a"; "param_b"]) ].

(** The cell [(i, j)] of the field [v], and the world after a store to it. *)
Definition peek (v : string) (i j : idx_t) (w : World) : double :=
  match fs_lookup v (w_fields w) with
  | Some f => data f i j
  | None => Double.zero
  end.

Definition poke (v : string) (i j : idx_t) (x : double) (w : World) : World :=
  match fs_lookup v (w_fields w) with
  | Some f =>
      set_fields
        (fs_update v (set_data (array_set (data f) i j x)) (w_fields w)) w
  | None => w
  end.

(** The values of a field over its shape, point by point and level by
    level. *)
Definition column (f : Field) (i : idx_t) : list double :=
  data f i <$> seqZ 0 (levels f).

Definition values (f : Field) : list (list double) :=
  column f <$> seqZ 0 (shape0 f).

End ExecSpec.

Import ExecSpec.

(* ===================================================================== *)
(** * Further concrete inputs and vocabulary *)
(* ===================================================================== *)

Module MoreSpec.

(** The four kernels that divide a mass by the total mass, with the names of
    the mass, the total mass and the product. *)
Definition ratio_kernels : list (M bool * (string * string * string)) :=
  [ (Mo.evalSpecificHumidity, ("m_v", "m_t", "specific_humidity"));
    (Mo.evalMassCloudIce,
     ("m_ci", "m_t", "mass_content_of_cloud_ice_in_atmosphere_layer"));
    (Mo.evalMassCloudLiquid,
     ("m_cl", "m_t",
      "mass_content_of_cloud_liquid_water_in_atmosphere_layer"));
    (Mo.evalMassRain, ("m_r", "m_t", "qrain")) ].

Section TopLevel.

Variable K : Constants.
Variable libm : Libm.




(** The temperature at model surface height that [evalParamAParamB] computes
    for column [jn] with boundary-layer index [bl], and the two values it
    stores at level 0. *)
Definition t_msh (height hl pl q : Field) (bl jn : idx_t) : double :=
  (let t_bl := (neg (grav K) / rd K)
               * (data hl jn (Mo.size_t_add bl 1) - data hl jn bl)
               / log libm (data pl jn (Mo.size_t_add bl 1) / data pl jn bl) in
   let t_bl := t_bl / (decimal 10 1 + c_virtual K * data q jn bl) in
   t_bl + Lclr K * (data height jn bl - data hl jn 0%Z))%D.



End TopLevel.



(** The names of the fields of a set, in order. *)
Definition names (fs : FieldSet) : list string := fst <$> fs.

(** The loop of [evalRatioToMt] runs over the horizontal points of the
    function space of [vars[1]] and the levels of [fields[1]].  It stays
    inside the buffers of the three fields when each of them has those
    cells. *)
Definition ratio_in_bounds (fx ft fr f1 : Field) : Prop :=
  (shape0 ft <= shape0 fx)%Z /\ (shape0 ft <= shape0 fr)%Z
  /\ (levels f1 <= levels fx)%Z /\ (levels f1 <= levels ft)%Z
  /\ (levels f1 <= levels fr)%Z.

End MoreSpec.

Module MoreScenarios.

(** A mass 0.5 and a total mass 2.0 over one cell. *)
Definition ratio_world : World :=
  Scenarios.world_of
    [ ("m_v", Scenarios.one_cell (decimal 5 1) ∅);
      ("m_t", Scenarios.one_cell (of_Z 2) ∅);
      ("q", Scenarios.one_cell (decimal 0 1) ∅) ].

(** The fields of [evalSpecificHumidity]: a mass 0.5 and a total mass [m_t]
    over one cell. *)
Definition humidity_world (m_t : double) : World :=
  Scenarios.world_of
    [ ("m_v", Scenarios.one_cell (decimal 5 1) ∅);
      ("m_t", Scenarios.one_cell m_t ∅);
      ("specific_humidity", Scenarios.one_cell (decimal 0 1) ∅) ].

(** The masses of [Scenarios.masses] followed by the field of the specific
    humidity. *)
Definition moist_air_world : World :=
  Scenarios.world_of
    (w_fields Scenarios.masses
     ++ [ ("specific_humidity", Scenarios.one_cell (decimal 0 1) ∅) ])%list.

(** A set with a single field. *)
Definition single_field : World :=
  Scenarios.world_of [ ("a", Scenarios.one_cell (of_Z 1) ∅) ].

(** Saturation 0.02 and a relative humidity of 0.5 at two metres. *)
Definition two_metre_world : World :=
  Scenarios.world_of
    [ ("qsat", Scenarios.one_cell (of_Z 4) ∅);
      ("relative_humidity_2m", Scenarios.one_cell (decimal 5 1) ∅);
      ("specific_humidity_at_two_meters_above_surface",
       Scenarios.one_cell (decimal 0 1) ∅) ].






End MoreScenarios.

Import MoreSpec.

(* ===================================================================== *)
(** * Facts about the field store and the execution monad *)
(* ===================================================================== *)

Module AtlasFacts.

Lemma fs_lookup_update_eq name g fs :
  fs_lookup name (fs_update name g fs) = g <$> fs_lookup name fs.
Proof.
  induction fs as [|[k f] rest IH]; simpl; [done|].
  destruct (decide (k = name)) as [->|Hne]; simpl.
  - by rewrite decide_True.
  - by rewrite decide_False.
Qed.

Lemma fs_lookup_update_ne name other g fs :
  name <> other ->
  fs_lookup other (fs_update name g fs) = fs_lookup other fs.
Proof.
  intros Hne. induction fs as [|[k f] rest IH]; simpl; [done|].
  destruct (decide (k = name)) as [->|Hk]; simpl.
  - by rewrite !decide_False.
  - by rewrite IH.
Qed.

Lemma fs_update_set_data_twice name d d' fs :
  fs_update name (set_data d') (fs_update name (set_data d) fs)
  = fs_update name (set_data d') fs.
Proof.
  induction fs as [|[k f] rest IH]; simpl; [done|].
  destruct (decide (k = name)) as [->|Hk]; simpl.
  - by rewrite decide_True.
  - by rewrite decide_False, IH.
Qed.

Lemma set_data_same f : set_data (data f) f = f.
Proof. by destruct f. Qed.

Lemma fs_update_same name fs :
  fs_update name (fun f => set_data (data f) f) fs = fs.
Proof.
  induction fs as [|[k f] rest IH]; simpl; [done|].
  destruct (decide (k = name)); simpl.
  - by rewrite set_data_same.
  - by rewrite IH.
Qed.

Lemma fs_update_current name f fs :
  fs_lookup name fs = Some f ->
  fs_update name (set_data (data f)) fs = fs.
Proof.
  induction fs as [|[k g] rest IH]; simpl; [done|].
  destruct (decide (k = name)); simpl.
  - intros [= ->]. by rewrite set_data_same.
  - intros H. by rewrite IH.
Qed.

Lemma fs_has_true name fs f :
  fs_lookup name fs = Some f -> fs_has name fs = true.
Proof. intros H. unfold fs_has. rewrite H. by apply bool_decide_eq_true. Qed.

Lemma fs_has_false name fs :
  fs_lookup name fs = None -> fs_has name fs = false.
Proof.
  intros H. unfold fs_has. rewrite H. apply bool_decide_eq_false.
  by intros [? ?].
Qed.

Lemma array_set_eq a i j x : array_set a i j x i j = x.
Proof. unfold array_set. by rewrite bool_decide_eq_true_2. Qed.

Lemma array_set_ne a i j x i' j' :
  i' <> i \/ j' <> j -> array_set a i j x i' j' = a i' j'.
Proof.
  intros H. unfold array_set. rewrite bool_decide_eq_false_2; [done|].
  intros [-> ->]. by destruct H.
Qed.

End AtlasFacts.

Module ExecFacts.

Import AtlasFacts.

Lemma bind_returned {A B} (c : M A) (k : A -> M B) w a w' :
  c w = Returned a w' -> bind c k w = k a w'.
Proof. intros H. unfold bind. by rewrite H. Qed.

Lemma bind_thrown {A B} (c : M A) (k : A -> M B) w e w' :
  c w = Thrown e w' -> bind c k w = Thrown e w'.
Proof. intros H. unfold bind. by rewrite H. Qed.

Lemma for_each_app {A} (l1 l2 : list A) body w :
  for_each (l1 ++ l2) body w = bind (for_each l1 body) (fun _ => for_each l2 body) w.
Proof.
  revert w. induction l1 as [|x l1 IH]; intros w; simpl; [done|].
  unfold bind in *. destruct (body x w) as [[] w'|e w']; [|done].
  apply IH.
Qed.

(** A loop whose body never throws and keeps an invariant that records the
    elements already visited. *)
Lemma for_each_invariant {A} (l : list A) (body : A -> M unit)
    (I : (A -> Prop) -> World -> Prop) :
  (forall P P' w, (forall y, P y <-> P' y) -> I P w -> I P' w) ->
  (forall x P w, x ∈ l -> I P w ->
     exists w', body x w = Returned tt w' /\ I (fun y => P y \/ y = x) w') ->
  forall P w, I P w ->
    exists w', for_each l body w = Returned tt w'
               /\ I (fun y => P y \/ y ∈ l) w'.
Proof.
  intros Hext. induction l as [|x l IH]; intros Hbody P w HI; simpl.
  - exists w. split; [done|]. eapply Hext; [|exact HI].
    intros y. split; [tauto|]. intros [?|H]; [done|]. by apply elem_of_nil in H.
  - destruct (Hbody x P w) as (w1 & Hb & HI1);
      [apply elem_of_cons; by left|done|].
    destruct (IH (fun y Q w0 Hy =>
                    Hbody y Q w0 (proj2 (elem_of_cons l y x) (or_intror Hy)))
                _ w1 HI1) as (w2 & Hl & HI2).
    exists w2. split; [by rewrite (bind_returned _ _ _ _ _ Hb)|].
    eapply Hext; [|exact HI2].
    intros y. rewrite elem_of_cons. tauto.
Qed.

(** A loop that keeps a plain invariant. *)
Lemma for_each_preserves {A} (l : list A) (body : A -> M unit)
    (I : World -> Prop) :
  (forall x w, x ∈ l -> I w -> exists w', body x w = Returned tt w' /\ I w') ->
  forall w, I w -> exists w', for_each l body w = Returned tt w' /\ I w'.
Proof.
  intros Hbody w HI.
  destruct (for_each_invariant l body (fun _ => I)) with (P := fun _ : A => False)
    (w := w) as (w' & ? & ?); eauto.
Qed.

End ExecFacts.

(** ** Point-wise kernels

    A functor that, at [(i, j)], leaves every other cell of the target field
    as it is and stores [G i j] in cell [(i, j)]: after [parallelFor] the
    target holds [G] on the whole index space and its old values elsewhere;
    no other field and no log has changed. *)
Module PointwiseFacts.

Import AtlasFacts ExecFacts.

Section Pointwise.

Variable tgt : string.
Variable fs0 : FieldSet.
Variable w0 : World.
Variable G : idx_t -> idx_t -> double.

Variable d0 : Array2.

Abbreviation target_is := (ExecSpec.target_is tgt fs0 w0).
Abbreviation writes_cell := (ExecSpec.writes_cell tgt fs0 w0 G).
Abbreviation visited := (ExecSpec.visited tgt fs0 w0 G d0).

Lemma visited_ext Pr Pr' w :
  (forall i j, Pr i j <-> Pr' i j) -> visited Pr w -> visited Pr' w.
Proof.
  intros Heq (d & Hw & Hin & Hout). exists d. split; [done|]. split.
  - intros i j H. apply Hin. by apply Heq.
  - intros i j H. apply Hout. intros H'. apply H. by apply Heq.
Qed.

Lemma visited_step functor Pr i j w :
  writes_cell functor -> visited Pr w ->
  exists w', functor i j w = Returned tt w'
             /\ visited (fun i' j' => Pr i' j' \/ (i' = i /\ j' = j)) w'.
Proof.
  intros Hf (d & -> & Hin & Hout).
  destruct (Hf i j d) as (d' & Hrun & Hcell & Hrest).
  exists (target_is d'). split; [done|]. exists d'. split; [done|]. split.
  - intros i' j' H.
    destruct (decide (i' = i)) as [->|Hi];
      [destruct (decide (j' = j)) as [->|Hj]|].
    + done.
    + rewrite Hrest by (by right). apply Hin.
      destruct H as [H|[_ H]]; [done|congruence].
    + rewrite Hrest by (by left). apply Hin.
      destruct H as [H|[H _]]; [done|congruence].
  - intros i' j' H.
    assert (i' <> i \/ j' <> j) as Hne.
    { destruct (decide (i' = i)) as [->|Hi]; [|by left].
      right. intros ->. apply H. by right. }
    rewrite Hrest by done. apply Hout. intros H'. apply H. by left.
Qed.

Lemma parallelFor_pointwise fspace functor conf :
  writes_cell functor ->
  exists d,
    parallelFor fspace functor conf (target_is d0)
    = Returned tt (target_is d)
    /\ (forall i j,
          0 <= i < horizontal_size fspace conf ->
          0 <= j < conf_levels conf -> d i j = G i j)
    /\ (forall i j,
          ~ (0 <= i < horizontal_size fspace conf
             /\ 0 <= j < conf_levels conf) -> d i j = d0 i j).
Proof.
  intros Hf. unfold parallelFor, for_idx.
  set (rows := seqZ 0 (horizontal_size fspace conf - 0)).
  set (cols := seqZ 0 (conf_levels conf - 0)).
  destruct (for_each_invariant rows
              (fun i => for_each cols (fun j => functor i j))
              (fun P w => visited (fun i j => P i /\ j ∈ cols) w))
    with (P := fun _ : idx_t => False) (w := target_is d0)
    as (w' & Hrun & d & -> & Hin & Hout).
  - intros P P' w Heq. apply visited_ext. intros i j. by rewrite Heq.
  - intros i P w _ HI.
    destruct (for_each_invariant cols (fun j => functor i j)
                (fun Q w => visited (fun i' j' =>
                    (P i' /\ j' ∈ cols) \/ (i' = i /\ Q j')) w))
      with (P := fun _ : idx_t => False) (w := w)
      as (w' & Hrun & HI').
    + intros Q Q' w1 Heq. apply visited_ext. intros i' j'.
      by rewrite Heq.
    + intros j Q w1 _ HQ.
      destruct (visited_step functor _ i j w1 Hf HQ) as (w2 & Hstep & H2).
      exists w2. split; [done|]. revert H2. apply visited_ext.
      intros i' j'. tauto.
    + revert HI. apply visited_ext. intros i' j'. tauto.
    + exists w'. split; [done|]. revert HI'. apply visited_ext.
      intros i' j'. tauto.
  - exists d0. split; [done|]. split; [|done]. intros i j [[] _].
  - exists d. split; [done|]. unfold rows, cols in *. split.
    + intros i j Hi Hj. apply Hin. rewrite !elem_of_seqZ. lia.
    + intros i j Hnot. apply Hout. rewrite !elem_of_seqZ. intros [[[]|?] ?].
      apply Hnot. lia.
Qed.

End Pointwise.

(** A world is the [target_is] of its own target data. *)
Lemma target_is_current tgt w ft :
  fs_lookup tgt (w_fields w) = Some ft ->
  target_is tgt (w_fields w) w (data ft) = w.
Proof.
  intros H. unfold target_is, set_fields.
  rewrite (fs_update_current _ _ _ H). by destruct w.
Qed.

Lemma view_get_other tgt fs0 w0 d v f i j :
  v <> tgt -> fs_lookup v fs0 = Some f ->
  view_get v i j (target_is tgt fs0 w0 d)
  = Returned (data f i j) (target_is tgt fs0 w0 d).
Proof.
  intros Hne Hv. unfold view_get, deref, bind, ret. simpl.
  rewrite fs_lookup_update_ne by done. by rewrite Hv.
Qed.

Lemma view_get_target tgt fs0 w0 d ft i j :
  fs_lookup tgt fs0 = Some ft ->
  view_get tgt i j (target_is tgt fs0 w0 d)
  = Returned (d i j) (target_is tgt fs0 w0 d).
Proof.
  intros Ht. unfold view_get, deref, bind, ret. simpl.
  rewrite fs_lookup_update_eq, Ht. done.
Qed.

Lemma view_set_target tgt fs0 w0 d ft i j x :
  fs_lookup tgt fs0 = Some ft ->
  view_set tgt i j x (target_is tgt fs0 w0 d)
  = Returned tt (target_is tgt fs0 w0 (array_set d i j x)).
Proof.
  intros Ht. unfold view_set. simpl.
  rewrite fs_lookup_update_eq, Ht. simpl.
  unfold target_is, set_fields. simpl.
  by rewrite fs_update_set_data_twice.
Qed.

Lemma fs_lookup_target_is tgt fs0 w0 d ft :
  fs_lookup tgt fs0 = Some ft ->
  fs_lookup tgt (w_fields (target_is tgt fs0 w0 d)) = Some (set_data d ft).
Proof. intros H. simpl. by rewrite fs_lookup_update_eq, H. Qed.

Lemma fs_lookup_target_is_other tgt fs0 w0 d name :
  name <> tgt ->
  fs_lookup name (w_fields (target_is tgt fs0 w0 d)) = fs_lookup name fs0.
Proof. intros H. simpl. by rewrite fs_lookup_update_ne. Qed.

End PointwiseFacts.

(* ===================================================================== *)
(** * Facts about [double] *)
(* ===================================================================== *)

Module DoubleFacts.

Lemma literal_100 : decimal 1000 1 = S754_finite false 7036874417766400 (-46).
Proof. vm_compute. reflexivity. Qed.

Lemma literal_0 : decimal 0 1 = S754_zero false.
Proof. vm_compute. reflexivity. Qed.

Lemma literal_1 : decimal 10 1 = of_Z 1.
Proof. vm_compute. reflexivity. Qed.

(** The literals agree with the ones the parser of primitive floats reads. *)
Lemma literals_as_parsed :
  Prim2SF 100.0%float = decimal 1000 1
  /\ Prim2SF 0.0%float = decimal 0 1
  /\ Prim2SF 1.0%float = decimal 10 1
  /\ Prim2SF 0x1.e666666666666p-1%float = decimal 95 2
  /\ Prim2SF 300.0%float = of_Z 300
  /\ Prim2SF 285.0%float = decimal 2850 1
  /\ Prim2SF 0x1.2492492492492p-2%float = decimal 2857142857142857 16.
Proof. vm_compute. repeat split. Qed.

Lemma SFcompare_antisym x y :
  SFcompare y x = CompOpp <$> SFcompare x y.
Proof.
  destruct x as [[]|[]| |[] mx ex], y as [[]|[]| |[] my ey]; simpl; try done.
  - rewrite (Z.compare_antisym ex ey).
    destruct (ex ?= ey)%Z; simpl; try done.
    pose proof (Pos.compare_cont_antisym mx my Eq) as H. simpl in H.
    by rewrite H.
  - rewrite (Z.compare_antisym ex ey).
    destruct (ex ?= ey)%Z; simpl; try done.
    pose proof (Pos.compare_cont_antisym mx my Eq) as H. simpl in H.
    by rewrite H.
Qed.

Lemma gt_lt x y : gt x y = lt y x.
Proof. done. Qed.

(** On numbers, [x <= y] is the negation of [x > y]. *)
Lemma le_iff_not_gt x y :
  isnan x = false -> isnan y = false -> le x y = negb (gt x y).
Proof.
  unfold le, gt, SFleb, SFltb. rewrite (SFcompare_antisym x y).
  destruct x as [[]|[]| |[] mx ex], y as [[]|[]| |[] my ey]; simpl; try done;
    intros _ _.
  - by destruct (ex ?= ey)%Z; simpl; try done; destruct (Pos.compare_cont Eq mx my).
  - by destruct (ex ?= ey)%Z; simpl; try done; destruct (Pos.compare_cont Eq mx my).
Qed.

Lemma lt_not_nan x y : lt x y = true -> isnan x = false /\ isnan y = false.
Proof.
  unfold lt, SFltb.
  by destruct x as [[]|[]| |[] mx ex], y as [[]|[]| |[] my ey].
Qed.

Lemma le_not_nan x y : le x y = true -> isnan x = false /\ isnan y = false.
Proof.
  unfold le, SFleb.
  by destruct x as [[]|[]| |[] mx ex], y as [[]|[]| |[] my ey].
Qed.

Lemma fmax_negative_zero :
  fmax (S754_zero true) (S754_zero false) = S754_zero false.
Proof. reflexivity. Qed.

Lemma fmax_left x y :
  ge x y = true -> x <> S754_zero true -> fmax x y = x.
Proof.
  intros Hge Hx. unfold fmax.
  destruct x as [[]| | |], y as [[]| | |]; try done; by rewrite Hge.
Qed.

Lemma fmax_right x y : ge x y = false -> isnan y = false -> fmax x y = y.
Proof.
  intros Hge Hy. unfold fmax.
  destruct x as [[]| | |], y as [[]| | |]; try done; by rewrite Hge, ?Hy.
Qed.

Lemma fmax_not_nan x y : isnan y = false -> isnan (fmax x y) = false.
Proof.
  intros Hy. unfold fmax.
  destruct x as [sx| | |sx mx ex], y as [sy| | |sy my ey]; try done;
    match goal with
    | |- context [ge ?a ?b] => destruct (ge a b) eqn:Hge; simpl; try done
    end;
    by destruct (le_not_nan _ _ Hge).
Qed.

(** The result of [fmax x y] is at least [y], whatever [x] is. *)
Lemma fmax_ge_right x y : le y y = true -> le y (fmax x y) = true.
Proof.
  intros Hy. unfold fmax.
  destruct x as [sx| | |sx mx ex], y as [sy| | |sy my ey]; try done;
    match goal with
    | |- context [ge ?a ?b] => destruct (ge a b) eqn:Hge; simpl; done
    end.
Qed.

Lemma gt_100_not_negative_zero x :
  gt x (decimal 1000 1) = true -> x <> S754_zero true.
Proof. intros Hgt ->. by rewrite literal_100 in Hgt. Qed.

(** Something above 100 is not below 0. *)
Lemma gt_100_ge_0 x : gt x (decimal 1000 1) = true -> ge x (decimal 0 1) = true.
Proof.
  rewrite literal_100, literal_0. unfold gt, ge, SFltb, SFleb.
  by destruct x as [[]|[]| |[] mx ex].
Qed.

Lemma gt_100_not_lt_0 x :
  gt x (decimal 1000 1) = true -> lt x (decimal 0 1) = false.
Proof.
  rewrite literal_100, literal_0. unfold gt, lt, SFltb.
  by destruct x as [[]|[]| |[] mx ex].
Qed.

Lemma ge_0_not_lt_0 x : ge x (decimal 0 1) = true -> lt x (decimal 0 1) = false.
Proof.
  rewrite literal_0. unfold ge, lt, SFleb, SFltb.
  by destruct x as [[]|[]| |[] mx ex].
Qed.

End DoubleFacts.

(* ===================================================================== *)
(** * The kernels of mo/model2geovals_varchange.cc *)
(* ===================================================================== *)

Module KernelFacts.

Import AtlasFacts ExecFacts PointwiseFacts DoubleFacts.
Local Open Scope double_scope.

Lemma checkFieldSetContent_ok names w :
  Forall (fun n => present n w) names ->
  checkFieldSetContent names w = Returned tt w.
Proof.
  unfold checkFieldSetContent.
  induction 1 as [|n names [f Hf] _ IH]; simpl; [done|].
  unfold bind at 1. unfold bind at 1. unfold has at 1.
  rewrite (fs_has_true _ _ _ Hf). unfold ret at 1. exact IH.
Qed.

(** A missing name: the exception is thrown and the world is as it was. *)
Lemma checkFieldSetContent_missing names w n :
  first_missing names (w_fields w) = Some n ->
  checkFieldSetContent names w = Thrown (DataValidationFailed n) w.
Proof.
  unfold checkFieldSetContent.
  induction names as [|m names IH]; simpl; [done|].
  unfold bind at 1. unfold bind at 1. unfold has at 1.
  destruct (fs_has m (w_fields w)) eqn:Hm.
  - unfold ret at 1. exact IH.
  - intros [= ->]. reflexivity.
Qed.

Lemma parallelFor_on_field tgt w ft G functor fspace conf :
  fs_lookup tgt (w_fields w) = Some ft ->
  writes_cell tgt (w_fields w) w G functor ->
  exists d,
    parallelFor fspace functor conf w
    = Returned tt (target_is tgt (w_fields w) w d)
    /\ (forall i j,
          (0 <= i < horizontal_size fspace conf)%Z ->
          (0 <= j < conf_levels conf)%Z -> d i j = G i j)
    /\ (forall i j,
          ~ ((0 <= i < horizontal_size fspace conf)%Z
             /\ (0 <= j < conf_levels conf)%Z) -> d i j = data ft i j).
Proof.
  intros Ht Hf.
  destruct (parallelFor_pointwise tgt (w_fields w) w G (data ft) fspace functor
              conf Hf) as (d & Hrun & Hin & Hout).
  rewrite (target_is_current _ _ _ Ht) in Hrun. by exists d.
Qed.

(** One statement of a kernel: a primitive whose result follows from the
    lookups in the context. *)
Ltac prim :=
  first
    [ reflexivity
    | unfold view_shape0;
      unfold f_levels, f_functionspace, f_metadata, f_shape0;
      unfold field, deref, bind, ret;
      cbn [w_fields];
      match goal with
      | H : fs_lookup ?n _ = Some _ |- context [fs_lookup ?n _] => rewrite H
      end;
      reflexivity ].

Ltac step := erewrite bind_returned by prim; cbv beta zeta.

Ltac check_passes :=
  erewrite bind_returned
    by (apply checkFieldSetContent_ok; repeat constructor;
        unfold present; cbn [w_fields]; eauto);
  cbv beta zeta.

Ltac cell_read := erewrite bind_returned by (by eapply view_get_other).

(** C8.  [evalTotalMassMoistAir], on a field set that has its five fields,
    returns [true] and leaves in every cell of [m_t] the sum
    [1 + m_v + m_ci + m_cl + m_r] of the cells of the four mass fields, added
    from left to right starting from the constant 1; no other field
    changes. *)
Theorem evalTotalMassMoistAir_one_plus_masses w m_v m_ci m_cl m_r m_t :
  fs_lookup "m_v" (w_fields w) = Some m_v ->
  fs_lookup "m_ci" (w_fields w) = Some m_ci ->
  fs_lookup "m_cl" (w_fields w) = Some m_cl ->
  fs_lookup "m_r" (w_fields w) = Some m_r ->
  fs_lookup "m_t" (w_fields w) = Some m_t ->
  exists w' m_t',
    Mo.evalTotalMassMoistAir w = Returned true w'
    /\ fs_lookup "m_t" (w_fields w') = Some m_t'
    /\ (forall i j, (0 <= i < shape0 m_t)%Z -> (0 <= j < levels m_t)%Z ->
         data m_t' i j
         = of_Z 1 + data m_v i j + data m_ci i j + data m_cl i j
           + data m_r i j)
    /\ (forall name, name <> "m_t" ->
         fs_lookup name (w_fields w') = fs_lookup name (w_fields w)).
Proof.
  intros Hv Hci Hcl Hr Ht.
  set (w1 := {| w_fields := w_fields w;
                w_trace := w_trace w
                           ++ ["[evalTotalMassMoistAir()] starting ..."];
                w_error := w_error w |}).
  set (G := fun i j => of_Z 1 + data m_v i j + data m_ci i j + data m_cl i j
                       + data m_r i j).
  set (functor := fun i j : idx_t =>
      bind (view_get "m_v" i j) (fun v =>
      bind (view_get "m_ci" i j) (fun ci =>
      bind (view_get "m_cl" i j) (fun cl =>
      bind (view_get "m_r" i j) (fun r =>
      view_set "m_t" i j (of_Z 1 + v + ci + cl + r)))))).
  assert (writes_cell "m_t" (w_fields w1) w1 G functor) as Hf.
  { intros i j d. exists (array_set d i j (G i j)). split; [|split].
    - unfold functor. do 4 cell_read. by eapply view_set_target.
    - apply array_set_eq.
    - intros. by apply array_set_ne. }
  destruct (parallelFor_on_field "m_t" w1 m_t G functor (functionspace m_t)
              {| conf_levels := levels m_t; include_halo := true |} Ht Hf)
    as (d & Hpar & Hin & Hout).
  eexists _, (set_data d m_t). split; [|split; [|split]].
  - unfold Mo.evalTotalMassMoistAir.
    step. check_passes. do 14 step. fold functor. fold w1.
    erewrite bind_returned by exact Hpar. cbv beta.
    step. reflexivity.
  - simpl. by rewrite fs_lookup_update_eq, Ht.
  - intros i j Hi Hj. cbn [data set_data]. by apply Hin.
  - intros name Hne. simpl. by rewrite fs_lookup_update_ne.
Qed.

(** [evalAirTemperature] on a field set that has its three fields. *)
Lemma evalAirTemperature_product w theta exner atemp :
  fs_lookup "theta" (w_fields w) = Some theta ->
  fs_lookup "exner" (w_fields w) = Some exner ->
  fs_lookup "air_temperature" (w_fields w) = Some atemp ->
  exists d,
    Mo.evalAirTemperature w
    = Returned true
        {| w_fields := fs_update "air_temperature" (set_data d) (w_fields w);
           w_trace := w_trace w ++ ["[evalAirTemperature()] starting ..."]
                      ++ ["[evalAirTemperature()] ... exit"];
           w_error := w_error w |}
    /\ (forall i j, (0 <= i < shape0 atemp)%Z -> (0 <= j < levels atemp)%Z ->
          d i j = data theta i j * data exner i j)
    /\ (forall i j, ~ ((0 <= i < shape0 atemp)%Z /\ (0 <= j < levels atemp)%Z) ->
          d i j = data atemp i j).
Proof.
  intros Hth Hex Hat.
  set (w1 := {| w_fields := w_fields w;
                w_trace := w_trace w ++ ["[evalAirTemperature()] starting ..."];
                w_error := w_error w |}).
  set (G := fun i j => data theta i j * data exner i j).
  set (functor := fun i j : idx_t =>
      bind (view_get "theta" i j) (fun th =>
      bind (view_get "exner" i j) (fun ex =>
      view_set "air_temperature" i j (th * ex)))).
  assert (writes_cell "air_temperature" (w_fields w1) w1 G functor) as Hf.
  { intros i j d. exists (array_set d i j (G i j)). split; [|split].
    - unfold functor. do 2 cell_read. by eapply view_set_target.
    - apply array_set_eq.
    - intros. by apply array_set_ne. }
  destruct (parallelFor_on_field "air_temperature" w1 atemp G functor
              (functionspace atemp)
              {| conf_levels := levels atemp; include_halo := true |} Hat Hf)
    as (d & Hpar & Hin & Hout).
  exists d. split; [|split; [exact Hin|exact Hout]].
  unfold Mo.evalAirTemperature.
  step. check_passes. do 10 step. fold functor. fold w1.
  erewrite bind_returned by exact Hpar. cbv beta.
  step. unfold ret, target_is, set_fields. simpl.
  by rewrite <- app_assoc.
Qed.

(** The flag [evalRelativeHumidity] reads from the metadata of its product. *)
Lemma cap_super_sat_read w rh :
  fs_lookup "relative_humidity" (w_fields w) = Some rh ->
  (if metadata_has (metadata rh) "cap_super_sat" then
     bind (field "relative_humidity") (fun h =>
     bind (f_metadata h) (fun md =>
     ret (metadata_get_bool md "cap_super_sat" false)))
   else ret false) w
  = Returned (metadata_get_bool (metadata rh) "cap_super_sat" false) w.
Proof.
  intros Hrh. destruct (metadata_has _ _) eqn:Hhas.
  - do 2 step. reflexivity.
  - unfold metadata_has in Hhas. apply bool_decide_eq_false in Hhas.
    unfold metadata_get_bool.
    destruct (metadata rh !! "cap_super_sat") as [v|]; [|done].
    destruct Hhas. by exists v.
Qed.

(** What [evalRelativeHumidity] leaves in a cell, as the code computes it. *)
Lemma evalRelativeHumidity_cells w q qsat rh :
  fs_lookup "specific_humidity" (w_fields w) = Some q ->
  fs_lookup "qsat" (w_fields w) = Some qsat ->
  fs_lookup "relative_humidity" (w_fields w) = Some rh ->
  exists w' d,
    Mo.evalRelativeHumidity w = Returned true w'
    /\ fs_lookup "relative_humidity" (w_fields w') = Some (set_data d rh)
    /\ (forall name, name <> "relative_humidity" ->
          fs_lookup name (w_fields w') = fs_lookup name (w_fields w))
    /\ (forall i j, (0 <= i < shape0 rh)%Z -> (0 <= j < levels rh)%Z ->
          d i j =
          let floored :=
            fmax (data q i j / data qsat i j * decimal 1000 1) (decimal 0 1) in
          if metadata_get_bool (metadata rh) "cap_super_sat" false
             && gt floored (decimal 1000 1)
          then decimal 1000 1 else floored).
Proof.
  intros Hq Hqsat Hrh.
  set (cap := metadata_get_bool (metadata rh) "cap_super_sat" false).
  set (w1 := {| w_fields := w_fields w;
                w_trace := w_trace w ++ ["[evalRelativeHumidity()] starting ..."];
                w_error := w_error w |}).
  set (G := fun i j =>
         let floored :=
           fmax (data q i j / data qsat i j * decimal 1000 1) (decimal 0 1) in
         if cap && gt floored (decimal 1000 1) then decimal 1000 1
         else floored).
  set (functor := fun i j : idx_t =>
      bind (view_get "specific_humidity" i j) (fun qv =>
      bind (view_get "qsat" i j) (fun qs =>
      bind (view_set "relative_humidity" i j
              (fmax (qv / qs * decimal 1000 1) (decimal 0 1))) (fun _ =>
      bind (view_get "relative_humidity" i j) (fun r =>
      view_set "relative_humidity" i j
        (if cap && gt r (decimal 1000 1) then decimal 1000 1 else r)))))).
  assert (writes_cell "relative_humidity" (w_fields w1) w1 G functor) as Hf.
  { intros i j d.
    set (m := fmax (data q i j / data qsat i j * decimal 1000 1) (decimal 0 1)).
    exists (array_set (array_set d i j m) i j (G i j)). split; [|split].
    - unfold functor. do 2 cell_read.
      erewrite bind_returned by (by eapply view_set_target).
      erewrite bind_returned by (by eapply view_get_target).
      fold m. rewrite array_set_eq. by eapply view_set_target.
    - apply array_set_eq.
    - intros. by rewrite !array_set_ne. }
  destruct (parallelFor_on_field "relative_humidity" w1 rh G functor
              (functionspace rh)
              {| conf_levels := levels rh; include_halo := true |} Hrh Hf)
    as (d & Hpar & Hin & Hout).
  eexists _, d. split; [|split; [|split]].
  - unfold Mo.evalRelativeHumidity.
    step. check_passes. do 2 step.
    erewrite bind_returned by (by apply cap_super_sat_read). cbv beta zeta.
    do 10 step. fold cap. fold functor. fold w1.
    erewrite bind_returned by exact Hpar. cbv beta.
    step. reflexivity.
  - simpl. by rewrite fs_lookup_update_eq, Hrh.
  - intros name Hne. simpl. by rewrite fs_lookup_update_ne.
  - intros i j Hi Hj. by apply Hin.
Qed.

(** C1.  [evalRelativeHumidity], on a field set that has its three fields,
    returns [true] and, at every grid point and level, with
    [raw = specific_humidity / qsat * 100.0]:
    the result is [raw] when [0 <= raw <= 100], except that the negative
    zero is stored as the positive zero; it is [0.0] when [raw] is not at
    least 0, and it is never below 0; when the metadata of
    [relative_humidity] holds [cap_super_sat = true] a [raw] above 100 gives
    exactly 100.0 and the result never exceeds 100; when the flag is absent
    or false a [raw] above 100 is stored as it is. *)
Theorem evalRelativeHumidity_cap_and_floor w q qsat rh :
  fs_lookup "specific_humidity" (w_fields w) = Some q ->
  fs_lookup "qsat" (w_fields w) = Some qsat ->
  fs_lookup "relative_humidity" (w_fields w) = Some rh ->
  exists w' rh',
    Mo.evalRelativeHumidity w = Returned true w'
    /\ fs_lookup "relative_humidity" (w_fields w') = Some rh'
    /\ forall i j, (0 <= i < shape0 rh)%Z -> (0 <= j < levels rh)%Z ->
        let raw := data q i j / data qsat i j * decimal 1000 1 in
        let out := data rh' i j in
        (ge raw (decimal 0 1) = true -> le raw (decimal 1000 1) = true ->
         raw <> S754_zero true -> out = raw)
        /\ (raw = S754_zero true -> out = S754_zero false)
        /\ (ge raw (decimal 0 1) = false -> out = decimal 0 1)
        /\ le (decimal 0 1) out = true
        /\ (metadata rh !! "cap_super_sat" = Some (MBool true) ->
             (gt raw (decimal 1000 1) = true -> out = decimal 1000 1)
             /\ le out (decimal 1000 1) = true)
        /\ (metadata rh !! "cap_super_sat" = None
             \/ metadata rh !! "cap_super_sat" = Some (MBool false) ->
             gt raw (decimal 1000 1) = true -> out = raw).
Proof.
  intros Hq Hqsat Hrh.
  destruct (evalRelativeHumidity_cells w q qsat rh Hq Hqsat Hrh)
    as (w' & d & Hrun & Hlook & _ & Hcells).
  exists w', (set_data d rh). split; [done|]. split; [done|].
  intros i j Hi Hj raw out. unfold out. cbn [data set_data].
  rewrite (Hcells i j Hi Hj). fold raw. cbv zeta.
  set (m := fmax raw (decimal 0 1)).
  assert (isnan (decimal 0 1) = false) as Hz by (by rewrite literal_0).
  assert (isnan (decimal 1000 1) = false) as Hh by (by rewrite literal_100).
  assert (isnan m = false) as Hm by (by apply fmax_not_nan).
  assert (le (decimal 0 1) m = true) as Hm0
    by (apply fmax_ge_right; by rewrite literal_0).
  assert (le (decimal 0 1) (decimal 1000 1) = true) as H0h
    by (by rewrite literal_0, literal_100).
  assert (le (decimal 1000 1) (decimal 1000 1) = true) as Hhh
    by (by rewrite literal_100).
  assert (gt (decimal 0 1) (decimal 1000 1) = false) as Hz100
    by (by rewrite literal_0, literal_100).
  split; [|split; [|split; [|split; [|split]]]].
  - intros Hge Hle Hnz. unfold m. rewrite (fmax_left _ _ Hge Hnz).
    destruct (le_not_nan _ _ Hle) as [Hn _].
    rewrite (le_iff_not_gt _ _ Hn Hh) in Hle.
    apply negb_true_iff in Hle. rewrite Hle. by rewrite andb_false_r.
  - intros Hraw. unfold m. rewrite Hraw, literal_0, fmax_negative_zero.
    rewrite literal_100. by rewrite andb_false_r.
  - intros Hge. unfold m. rewrite (fmax_right _ _ Hge Hz).
    by rewrite Hz100, andb_false_r.
  - by destruct (_ && _).
  - intros Hflag. unfold metadata_get_bool. rewrite Hflag. simpl. split.
    + intros Hgt. unfold m.
      rewrite (fmax_left _ _ (gt_100_ge_0 _ Hgt)
                 (gt_100_not_negative_zero _ Hgt)).
      by rewrite Hgt.
    + destruct (gt m _) eqn:Hc; [done|].
      rewrite (le_iff_not_gt _ _ Hm Hh). by rewrite Hc.
  - intros Hflag Hgt. unfold m.
    rewrite (fmax_left _ _ (gt_100_ge_0 _ Hgt)
               (gt_100_not_negative_zero _ Hgt)).
    unfold metadata_get_bool. by destruct Hflag as [-> | ->].
Qed.

(** C9.  [evalTotalRelativeHumidity], on a field set that has its six fields,
    returns [true] and writes, at every grid point and level, with
    [raw = (q + qcl + qci + qrain) / qsat * 100.0]: 0.0 when [raw < 0.0] and
    [raw] itself otherwise.  In particular a [raw] above 100.0 is stored as it
    is; the metadata of the fields are not constrained, so this holds
    whatever flag they carry. *)
Theorem evalTotalRelativeHumidity_floor_only w q qcl qci qrain qsat rht :
  fs_lookup "specific_humidity" (w_fields w) = Some q ->
  fs_lookup "mass_content_of_cloud_liquid_water_in_atmosphere_layer"
    (w_fields w) = Some qcl ->
  fs_lookup "mass_content_of_cloud_ice_in_atmosphere_layer" (w_fields w)
    = Some qci ->
  fs_lookup "qrain" (w_fields w) = Some qrain ->
  fs_lookup "qsat" (w_fields w) = Some qsat ->
  fs_lookup "rht" (w_fields w) = Some rht ->
  exists w' rht',
    Mo.evalTotalRelativeHumidity w = Returned true w'
    /\ fs_lookup "rht" (w_fields w') = Some rht'
    /\ forall i j, (0 <= i < shape0 rht)%Z -> (0 <= j < levels rht)%Z ->
        let raw := (data q i j + data qcl i j + data qci i j + data qrain i j)
                   / data qsat i j * decimal 1000 1 in
        let out := data rht' i j in
        (lt raw (decimal 0 1) = true -> out = decimal 0 1)
        /\ (lt raw (decimal 0 1) = false -> out = raw)
        /\ (gt raw (decimal 1000 1) = true -> out = raw)
        /\ lt out (decimal 0 1) = false.
Proof.
  intros Hq Hqcl Hqci Hqrain Hqsat Hrht.
  set (w1 := {| w_fields := w_fields w;
                w_trace := w_trace w
                           ++ ["[evalTotalRelativeHumidity()] starting ..."];
                w_error := w_error w |}).
  set (raw := fun i j =>
         (data q i j + data qcl i j + data qci i j + data qrain i j)
         / data qsat i j * decimal 1000 1).
  set (G := fun i j =>
         if lt (raw i j) (decimal 0 1) then decimal 0 1 else raw i j).
  set (functor := fun i j : idx_t =>
      bind (view_get "specific_humidity" i j) (fun qv =>
      bind (view_get
              "mass_content_of_cloud_liquid_water_in_atmosphere_layer" i j)
        (fun qclv =>
      bind (view_get "mass_content_of_cloud_ice_in_atmosphere_layer" i j)
        (fun qciv =>
      bind (view_get "qrain" i j) (fun qrainv =>
      bind (view_get "qsat" i j) (fun qs =>
      bind (view_set "rht" i j
              ((qv + qclv + qciv + qrainv) / qs * decimal 1000 1)) (fun _ =>
      bind (view_get "rht" i j) (fun r =>
      if lt r (decimal 0 1) then view_set "rht" i j (decimal 0 1)
      else ret tt)))))))).
  assert (writes_cell "rht" (w_fields w1) w1 G functor) as Hf.
  { intros i j d.
    exists (if lt (raw i j) (decimal 0 1)
            then array_set (array_set d i j (raw i j)) i j (decimal 0 1)
            else array_set d i j (raw i j)).
    split; [|split].
    - unfold functor. do 5 cell_read.
      erewrite bind_returned by (by eapply view_set_target).
      erewrite bind_returned by (by eapply view_get_target).
      rewrite array_set_eq. fold (raw i j).
      destruct (lt (raw i j) (decimal 0 1)); [|done].
      by eapply view_set_target.
    - unfold G. destruct (lt (raw i j) (decimal 0 1)); apply array_set_eq.
    - intros i' j' Hne.
      destruct (lt (raw i j) (decimal 0 1)); by rewrite !array_set_ne. }
  destruct (parallelFor_on_field "rht" w1 rht G functor (functionspace rht)
              {| conf_levels := levels rht; include_halo := true |} Hrht Hf)
    as (d & Hpar & Hin & Hout).
  eexists _, (set_data d rht). split; [|split].
  - unfold Mo.evalTotalRelativeHumidity.
    step. check_passes. do 16 step. fold functor. fold w1.
    erewrite bind_returned by exact Hpar. cbv beta.
    step. reflexivity.
  - simpl. by rewrite fs_lookup_update_eq, Hrht.
  - intros i j Hi Hj. cbn [data set_data]. cbv zeta.
    rewrite (Hin i j Hi Hj). unfold G. fold (raw i j).
    split; [|split; [|split]].
    + by intros ->.
    + by intros ->.
    + intros Hgt. by rewrite (gt_100_not_lt_0 _ Hgt).
    + destruct (lt (raw i j) (decimal 0 1)) eqn:Hlt; [|done].
      by rewrite literal_0.
Qed.

(** C6.  The default cookbook lists [AirTemperature_A] as the one candidate
    for [air_temperature]; the kernel that computes it from [theta] and
    [exner] returns [true] and stores [theta * exner] in every cell of
    [air_temperature]; and on [theta = [300.0]], [exner = [0.95]] over one
    grid point and one level the field becomes [[285.0]]. *)
Theorem air_temperature_is_theta_times_exner :
  (forall names,
     VaderParams.default_cookbook names !! "air_temperature"
     = Some [VaderParams.AirTemperature_A_Name names])
  /\ (forall w theta exner atemp,
        fs_lookup "theta" (w_fields w) = Some theta ->
        fs_lookup "exner" (w_fields w) = Some exner ->
        fs_lookup "air_temperature" (w_fields w) = Some atemp ->
        exists w' atemp',
          Mo.evalAirTemperature w = Returned true w'
          /\ fs_lookup "air_temperature" (w_fields w') = Some atemp'
          /\ forall i j,
               (0 <= i < shape0 atemp)%Z -> (0 <= j < levels atemp)%Z ->
               data atemp' i j = data theta i j * data exner i j)
  /\ (exists w' atemp',
        Mo.evalAirTemperature Scenarios.scenario1 = Returned true w'
        /\ fs_lookup "air_temperature" (w_fields w') = Some atemp'
        /\ values atemp' = [[decimal 2850 1]]).
Proof.
  split; [|split].
  - intros names. reflexivity.
  - intros w theta exner atemp Hth Hex Hat.
    destruct (evalAirTemperature_product w theta exner atemp Hth Hex Hat)
      as (d & Hrun & Hin & _).
    eexists _, (set_data d atemp). split; [exact Hrun|]. split.
    + simpl. by rewrite fs_lookup_update_eq, Hat.
    + exact Hin.
  - eexists _, _. split; [|split].
    + vm_compute. reflexivity.
    + vm_compute. reflexivity.
    + vm_compute. reflexivity.
Qed.

(** ** Validation of the required fields *)

Ltac validation :=
  intros w n Hmiss; eexists; split;
  [ erewrite bind_returned by reflexivity; cbv beta zeta;
    erewrite bind_thrown by (apply checkFieldSetContent_missing; exact Hmiss);
    reflexivity
  | reflexivity ].

Lemma evalTotalMassMoistAir_validates :
  validates Mo.evalTotalMassMoistAir ["m_v"; "m_ci"; "m_cl"; "m_r"; "m_t"].
Proof. unfold Mo.evalTotalMassMoistAir. validation. Qed.

Lemma evalSpecificHumidity_validates :
  validates Mo.evalSpecificHumidity ["m_v"; "m_t"; "specific_humidity"].
Proof. unfold Mo.evalSpecificHumidity. validation. Qed.

Lemma evalRelativeHumidity_validates :
  validates Mo.evalRelativeHumidity
    ["specific_humidity"; "qsat"; "relative_humidity"].
Proof. unfold Mo.evalRelativeHumidity. validation. Qed.

Lemma evalTotalRelativeHumidity_validates :
  validates Mo.evalTotalRelativeHumidity
    ["specific_humidity";
     "mass_content_of_cloud_liquid_water_in_atmosphere_layer";
     "mass_content_of_cloud_ice_in_atmosphere_layer"; "qrain"; "qsat"; "rht"].
Proof. unfold Mo.evalTotalRelativeHumidity. validation. Qed.

Lemma evalMassCloudIce_validates :
  validates Mo.evalMassCloudIce
    ["m_ci"; "m_t"; "mass_content_of_cloud_ice_in_atmosphere_layer"].
Proof. unfold Mo.evalMassCloudIce. validation. Qed.

Lemma evalMassCloudLiquid_validates :
  validates Mo.evalMassCloudLiquid
    ["m_cl"; "m_t"; "mass_content_of_cloud_liquid_water_in_atmosphere_layer"].
Proof. unfold Mo.evalMassCloudLiquid. validation. Qed.

Lemma evalMassRain_validates :
  validates Mo.evalMassRain ["m_r"; "m_t"; "qrain"].
Proof. unfold Mo.evalMassRain. validation. Qed.

Lemma evalAirTemperature_validates :
  validates Mo.evalAirTemperature ["theta"; "exner"; "air_temperature"].
Proof. unfold Mo.evalAirTemperature. validation. Qed.

Lemma evalSpecificHumidityFromRH_2m_validates :
  validates Mo.evalSpecificHumidityFromRH_2m
    ["qsat"; "relative_humidity_2m";
     "specific_humidity_at_two_meters_above_surface"].
Proof. unfold Mo.evalSpecificHumidityFromRH_2m. validation. Qed.

Lemma evalParamAParamB_validates K libm blindex :
  validates (Mo.evalParamAParamB K libm blindex)
    ["height"; "height_levels"; "air_pressure_levels_minus_one";
     "specific_humidity"; "param_a"; "param_b"].
Proof. unfold Mo.evalParamAParamB. validation. Qed.

Lemma fs_has_true_inv name fs :
  fs_has name fs = true -> exists f, fs_lookup name fs = Some f.
Proof. unfold fs_has. intros H. by apply bool_decide_eq_true in H as [f ?]; exists f. Qed.

Lemma fs_has_false_inv name fs :
  fs_has name fs = false -> fs_lookup name fs = None.
Proof.
  unfold fs_has. intros H. apply bool_decide_eq_false in H.
  destruct (fs_lookup name fs) as [f|]; [|done]. destruct H. by exists f.
Qed.

Lemma field_absent name w :
  fs_lookup name (w_fields w) = None ->
  field name w = Thrown (FieldNotFound name) w.
Proof. intros H. unfold field. by rewrite H. Qed.

(** [evalAirPressureLevels] has no validation step.  When the field set lacks
    one of the five fields it uses, the lookup of the first missing one fails:
    the exception is the one of the field set, raised after the fields before
    it have been fetched, and the field set is as it was. *)
Lemma evalAirPressureLevels_not_validated K libm w n :
  first_missing
    ["exner_levels_minus_one"; "air_pressure_levels_minus_one"; "theta";
     "height_levels"; "air_pressure_levels"] (w_fields w) = Some n ->
  Mo.evalAirPressureLevels K libm w
  = Thrown (FieldNotFound n)
      {| w_fields := w_fields w;
         w_trace := w_trace w ++ ["[evalAirPressureLevels()] starting ..."];
         w_error := w_error w |}.
Proof.
  unfold Mo.evalAirPressureLevels. simpl.
  repeat
    (match goal with
     | |- context [fs_has ?m (w_fields w)] =>
         destruct (fs_has m (w_fields w)) eqn:?Hhas;
         [ apply fs_has_true_inv in Hhas as [? ?]
         | apply fs_has_false_inv in Hhas ]
     end);
    intros [= <-]; step;
    repeat first
      [ by erewrite bind_thrown by (by apply field_absent)
      | step ].
Qed.

(** ** Loops that read and write cells of fields that are present *)

Lemma view_get_present v i j w :
  present v w -> view_get v i j w = Returned (peek v i j w) w.
Proof.
  intros [f Hf]. unfold view_get, deref, bind, ret, peek. by rewrite Hf.
Qed.

Lemma view_set_present v i j x w :
  present v w -> view_set v i j x w = Returned tt (poke v i j x w).
Proof. intros [f Hf]. unfold view_set, poke. by rewrite Hf. Qed.

Lemma present_poke n v i j x w : present n w -> present n (poke v i j x w).
Proof.
  unfold present, poke. intros Hn.
  destruct (fs_lookup v (w_fields w)) as [f|] eqn:Hv; [|done]. simpl.
  destruct (decide (v = n)) as [->|Hne].
  - rewrite fs_lookup_update_eq, Hv. by eexists.
  - by rewrite fs_lookup_update_ne.
Qed.

Lemma w_error_poke v i j x w : w_error (poke v i j x w) = w_error w.
Proof. unfold poke. by destruct (fs_lookup v (w_fields w)). Qed.

Lemma w_trace_poke v i j x w : w_trace (poke v i j x w) = w_trace w.
Proof. unfold poke. by destruct (fs_lookup v (w_fields w)). Qed.

Lemma metadata_has_false (md : gmap string MetaValue) key :
  md !! key = None -> metadata_has md key = false.
Proof.
  intros H. unfold metadata_has. rewrite H. apply bool_decide_eq_false.
  by intros [? ?].
Qed.

Ltac cell :=
  first
    [ erewrite bind_returned
        by (apply view_get_present; eauto 10 using present_poke)
    | erewrite bind_returned
        by (apply view_set_present; eauto 10 using present_poke) ];
  cbv beta zeta.

(** C4.  On a field set that has the six fields of [evalParamAParamB] but
    whose [height] field carries no [boundary_layer_index], the kernel logs
    the validation error and goes on: whatever value the uninitialised
    [blindex] holds, the call returns [true]. *)
Theorem evalParamAParamB_missing_index_returns_true
    K libm blindex w height hl pl q pa pb :
  fs_lookup "height" (w_fields w) = Some height ->
  fs_lookup "height_levels" (w_fields w) = Some hl ->
  fs_lookup "air_pressure_levels_minus_one" (w_fields w) = Some pl ->
  fs_lookup "specific_humidity" (w_fields w) = Some q ->
  fs_lookup "param_a" (w_fields w) = Some pa ->
  fs_lookup "param_b" (w_fields w) = Some pb ->
  metadata height !! "boundary_layer_index" = None ->
  exists w',
    Mo.evalParamAParamB K libm blindex w = Returned true w'
    /\ w_error w'
       = (w_error w
          ++ [("ERROR - data validation failed "
               ++ "we expect boundary_layer_index value "
               ++ "in the meta data of the height field")%string])%list.
Proof.
  intros Hh Hhl Hpl Hq Hpa Hpb Hmd.
  set (msg := "ERROR - data validation failed "
              ++ "we expect boundary_layer_index value "
              ++ "in the meta data of the height field").
  set (w2 := {| w_fields := w_fields w;
                w_trace := w_trace w ++ ["[evalParamAParamB2()] starting ..."];
                w_error := w_error w ++ [msg] |}).
  set (I := fun w' : World =>
         present "height" w' /\ present "height_levels" w'
         /\ present "air_pressure_levels_minus_one" w'
         /\ present "specific_humidity" w'
         /\ present "param_a" w' /\ present "param_b" w'
         /\ w_error w' = w_error w2).
  assert (I w2) as HI2.
  { unfold I, present. simpl. rewrite Hh, Hhl, Hpl, Hq, Hpa, Hpb.
    repeat split; by eexists. }
  cut (match Mo.evalParamAParamB K libm blindex w with
       | Returned b w' => b = true /\ w_error w' = w_error w2
       | Thrown _ _ => False
       end).
  { destruct (Mo.evalParamAParamB K libm blindex w) as [b w'|]; [|done].
    intros [-> He]. by exists w'. }
  unfold Mo.evalParamAParamB.
  step. check_passes. do 2 step.
  rewrite (metadata_has_false _ _ Hmd). cbn [negb].
  do 16 step. fold msg. fold w2.
  match goal with
  | |- context [for_idx ?lo ?hi ?body] =>
      destruct (for_each_preserves (seqZ lo (hi - lo)) body I) with (w := w2)
        as (w3 & Hloop & HI3)
  end.
  { intros jn w' _ (H1 & H2 & H3 & H4 & H5 & H6 & He).
    eexists. split.
    - do 10 cell.
      rewrite view_set_present by eauto 10 using present_poke.
      reflexivity.
    - unfold I. rewrite !w_error_poke.
      repeat split; eauto 10 using present_poke. }
  { exact HI2. }
  unfold for_idx. erewrite bind_returned by exact Hloop. cbv beta.
  step. unfold ret. split; [done|]. simpl.
  by destruct HI3 as (_ & _ & _ & _ & _ & _ & ->).
Qed.

Lemma evalParamAParamB_missing_index_witness :
  exists w',
    Mo.evalParamAParamB Scenarios.sample_constants Scenarios.sample_libm 7
      Scenarios.no_boundary_layer_index = Returned true w'
    /\ w_error w'
       = ["ERROR - data validation failed we expect boundary_layer_index value in the meta data of the height field"].
Proof.
  destruct (evalParamAParamB_missing_index_returns_true
              Scenarios.sample_constants Scenarios.sample_libm 7
              Scenarios.no_boundary_layer_index
              (Scenarios.one_cell (of_Z 10) ∅)
              (Scenarios.one_cell (of_Z 20) ∅)
              (Scenarios.one_cell (of_Z 1000) ∅)
              (Scenarios.one_cell (decimal 1 2) ∅)
              (Scenarios.one_cell (decimal 0 1) ∅)
              (Scenarios.one_cell (decimal 0 1) ∅))
    as (w' & Hrun & Herr); try reflexivity.
  exists w'. split; [exact Hrun|exact Herr].
Defined.

Lemma evalTotalMassMoistAir_witness :
  exists w' m_t',
    Mo.evalTotalMassMoistAir Scenarios.masses = Returned true w'
    /\ fs_lookup "m_t" (w_fields w') = Some m_t'
    /\ data m_t' 0%Z 0%Z = decimal 19375 4.
Proof.
  destruct (evalTotalMassMoistAir_one_plus_masses Scenarios.masses
              (Scenarios.one_cell (decimal 25 2) ∅)
              (Scenarios.one_cell (decimal 5 1) ∅)
              (Scenarios.one_cell (decimal 125 3) ∅)
              (Scenarios.one_cell (decimal 625 4) ∅)
              (Scenarios.one_cell (decimal 0 1) ∅))
    as (w' & m_t' & Hrun & Hlook & Hcells & _); try reflexivity.
  exists w', m_t'. split; [exact Hrun|]. split; [exact Hlook|].
  rewrite (Hcells 0%Z 0%Z); [|done|done]. vm_compute. reflexivity.
Defined.

Lemma evalRelativeHumidity_witness :
  exists w' rh',
    Mo.evalRelativeHumidity (Scenarios.scenario4 Scenarios.cap_on)
    = Returned true w'
    /\ fs_lookup "relative_humidity" (w_fields w') = Some rh'
    /\ data rh' 0%Z 0%Z = decimal 1000 1.
Proof.
  destruct (evalRelativeHumidity_cap_and_floor
              (Scenarios.scenario4 Scenarios.cap_on)
              (Scenarios.one_cell (decimal 15 1) ∅)
              (Scenarios.one_cell (of_Z 1) ∅)
              (Scenarios.one_cell (decimal 0 1) Scenarios.cap_on))
    as (w' & rh' & Hrun & Hlook & Hcells); try reflexivity.
  exists w', rh'. split; [exact Hrun|]. split; [exact Hlook|].
  destruct (Hcells 0%Z 0%Z) as (_ & _ & _ & _ & Hcap & _); [done|done|].
  apply Hcap; reflexivity.
Defined.

(** With the flag cleared or absent, the same input is stored as 150. *)
Example evalRelativeHumidity_uncapped :
  (exists w' rh',
     Mo.evalRelativeHumidity (Scenarios.scenario4 Scenarios.cap_off)
     = Returned true w'
     /\ fs_lookup "relative_humidity" (w_fields w') = Some rh'
     /\ values rh' = [[of_Z 150]])
  /\ (exists w' rh',
        Mo.evalRelativeHumidity (Scenarios.scenario4 ∅) = Returned true w'
        /\ fs_lookup "relative_humidity" (w_fields w') = Some rh'
        /\ values rh' = [[of_Z 150]]).
Proof.
  split; eexists _, _; (split; [|split]); vm_compute; reflexivity.
Qed.

(** A raw ratio of [-0.0] is stored as [+0.0]. *)
Example evalRelativeHumidity_negative_zero :
  exists w' rh',
    Mo.evalRelativeHumidity Scenarios.negative_zero_humidity
    = Returned true w'
    /\ fs_lookup "relative_humidity" (w_fields w') = Some rh'
    /\ values rh' = [[S754_zero false]].
Proof. eexists _, _. (split; [|split]); vm_compute; reflexivity. Qed.

Lemma evalTotalRelativeHumidity_witness :
  exists w' rht',
    Mo.evalTotalRelativeHumidity Scenarios.supersaturated_total
    = Returned true w'
    /\ fs_lookup "rht" (w_fields w') = Some rht'
    /\ metadata rht' !! "cap_super_sat" = Some (MBool true)
    /\ data rht' 0%Z 0%Z = of_Z 150.
Proof.
  destruct (evalTotalRelativeHumidity_floor_only
              Scenarios.supersaturated_total
              (Scenarios.one_cell (of_Z 1) ∅)
              (Scenarios.one_cell (decimal 25 2) ∅)
              (Scenarios.one_cell (decimal 25 2) ∅)
              (Scenarios.one_cell (decimal 0 1) ∅)
              (Scenarios.one_cell (of_Z 1) ∅)
              (Scenarios.one_cell (decimal 0 1) Scenarios.cap_on))
    as (w' & rht' & Hrun & Hlook & Hcells); try reflexivity.
  exists w', rht'. split; [exact Hrun|]. split; [exact Hlook|].
  assert (data rht' 0%Z 0%Z = of_Z 150) as Hcell.
  { assert (0 <= 0 < 1)%Z as Hin by (split; [discriminate|reflexivity]).
    destruct (Hcells 0%Z 0%Z Hin Hin) as (_ & _ & Hgt & _).
    rewrite Hgt; vm_compute; reflexivity. }
  split; [|exact Hcell].
  clear Hcells Hcell.
  assert (Returned true w'
          = Mo.evalTotalRelativeHumidity Scenarios.supersaturated_total)
    as Hw by (symmetry; exact Hrun).
  vm_compute in Hw. injection Hw as ->.
  vm_compute in Hlook. injection Hlook as <-. reflexivity.
Defined.

(** A kernel that validates its names fails hard on a missing one. *)
Lemma validates_fails_on_missing kernel names :
  validates kernel names -> fails_on_missing kernel names.
Proof.
  intros Hv w n Hmiss. destruct (Hv w n Hmiss) as (w' & Hrun & Hfs).
  exists (DataValidationFailed n), w'. split; [exact Hrun|].
  split; [by left|exact Hfs].
Qed.

(** [evalAirPressureLevels] has no validation call, but it fetches its five
    fields before its loop: a missing one ends the call in the lookup. *)
Lemma evalAirPressureLevels_fails_on_missing K libm :
  fails_on_missing (Mo.evalAirPressureLevels K libm)
    ["exner_levels_minus_one"; "air_pressure_levels_minus_one"; "theta";
     "height_levels"; "air_pressure_levels"].
Proof.
  intros w n Hmiss. eexists (FieldNotFound n), _.
  split; [by apply evalAirPressureLevels_not_validated|].
  split; [by right|reflexivity].
Qed.

(** C5.  For every kernel of the file, a missing field is a hard error.  When
    the field set lacks one of the fields the kernel uses, the call returns
    no value: it ends in an exception that names the first missing field,
    raised before any cell is read or written, and the field set is as it
    was.  The exception is the one of the validation for the ten kernels
    that call [checkFieldSetContent], and the one of the lookup in the field
    set for [evalAirPressureLevels], which fetches its five fields before its
    loop. *)
Theorem leaf_kernels_missing_field_is_hard_error
    K libm blindex kernel names w n :
  (kernel, names) ∈ leaf_kernels K libm blindex ->
  first_missing names (w_fields w) = Some n ->
  exists e w',
    kernel w = Thrown e w'
    /\ (e = DataValidationFailed n \/ e = FieldNotFound n)
    /\ w_fields w' = w_fields w.
Proof.
  intros Hk. revert w n. change (fails_on_missing kernel names).
  unfold leaf_kernels in Hk.
  repeat (apply elem_of_cons in Hk as [Hk|Hk]);
    [..|by apply elem_of_nil in Hk];
    injection Hk as -> ->;
    first
      [ apply evalAirPressureLevels_fails_on_missing
      | apply validates_fails_on_missing;
        eauto using evalTotalMassMoistAir_validates,
          evalSpecificHumidity_validates, evalRelativeHumidity_validates,
          evalTotalRelativeHumidity_validates, evalMassCloudIce_validates,
          evalMassCloudLiquid_validates, evalMassRain_validates,
          evalAirTemperature_validates,
          evalSpecificHumidityFromRH_2m_validates,
          evalParamAParamB_validates ].
Qed.

Lemma leaf_kernels_missing_field_witness :
  (exists e w',
     Mo.evalAirPressureLevels Scenarios.sample_constants Scenarios.sample_libm
       Scenarios.no_theta = Thrown e w'
     /\ (e = DataValidationFailed "theta" \/ e = FieldNotFound "theta")
     /\ w_fields w' = w_fields Scenarios.no_theta)
  /\ (exists e w',
        Mo.evalAirTemperature Scenarios.no_theta = Thrown e w'
        /\ (e = DataValidationFailed "theta" \/ e = FieldNotFound "theta")
        /\ w_fields w' = w_fields Scenarios.no_theta).
Proof.
  split.
  - apply (leaf_kernels_missing_field_is_hard_error
             Scenarios.sample_constants Scenarios.sample_libm 0%Z
             (Mo.evalAirPressureLevels Scenarios.sample_constants
                Scenarios.sample_libm)
             ["exner_levels_minus_one"; "air_pressure_levels_minus_one";
              "theta"; "height_levels"; "air_pressure_levels"]
             Scenarios.no_theta "theta"); [|reflexivity].
    do 8 (apply elem_of_cons; right). apply elem_of_cons. by left.
  - apply (leaf_kernels_missing_field_is_hard_error
             Scenarios.sample_constants Scenarios.sample_libm 0%Z
             Mo.evalAirTemperature ["theta"; "exner"; "air_temperature"]
             Scenarios.no_theta "theta"); [|reflexivity].
    do 7 (apply elem_of_cons; right). apply elem_of_cons. by left.
Defined.

(** On a field set without [theta] the two exceptions are seen side by
    side. *)
Example missing_theta :
  (forall K libm,
     Mo.evalAirPressureLevels K libm Scenarios.no_theta
     = Thrown (FieldNotFound "theta")
         {| w_fields := w_fields Scenarios.no_theta;
            w_trace := ["[evalAirPressureLevels()] starting ..."];
            w_error := [] |})
  /\ Mo.evalAirTemperature Scenarios.no_theta
     = Thrown (DataValidationFailed "theta")
         {| w_fields := w_fields Scenarios.no_theta;
            w_trace := ["[evalAirTemperature()] starting ..."];
            w_error := [] |}.
Proof.
  split; [|reflexivity]. intros K libm.
  by rewrite (evalAirPressureLevels_not_validated K libm Scenarios.no_theta
                "theta").
Qed.

End KernelFacts.

(* ===================================================================== *)
(** * Parameters and the recipe interface *)
(* ===================================================================== *)

Module InterfaceFacts.

(** C3.  [AirPressureToKappa_AParameters] declares the required parameter
    ["recipe name"]: the class cannot be built from an empty configuration,
    whereas [VaderParameters] can, and supplying the one key is enough. *)
Theorem AirPressureToKappa_A_requires_recipe_name :
  Oops.required_parameters VaderParams.AirPressureToKappa_AParameters
  = ["recipe name"]
  /\ Oops.constructible VaderParams.AirPressureToKappa_AParameters ∅ = false
  /\ Oops.constructible VaderParams.AirPressureToKappa_AParameters
       {[ "recipe name" ]} = true
  /\ Oops.required_parameters VaderParams.VaderParameters = []
  /\ Oops.constructible VaderParams.VaderParameters ∅ = true.
Proof. repeat split; vm_compute; reflexivity. Qed.

(** C10.  A recipe that overrides neither [requiresSetup] nor [setup]:
    [requiresSetup()] is [false], [setup] returns [true] and leaves the field
    set as it is, and the executor's setup phase never calls [setup] for
    it. *)
Theorem base_class_defaults (r : Vader.Recipe) :
  Vader.overrides_nothing r ->
  Vader.requiresSetup r = false
  /\ (forall w, Vader.setup r w = Returned true w)
  /\ (forall already w,
        Vader.setup_phase r already w = Returned (true, false) w).
Proof.
  intros [Hreq Hsetup]. split; [|split].
  - unfold Vader.requiresSetup. by rewrite Hreq.
  - intros w. unfold Vader.setup. by rewrite Hsetup.
  - intros already w. unfold Vader.setup_phase, Vader.requiresSetup.
    by rewrite Hreq.
Qed.

Lemma base_class_defaults_witness :
  Vader.requiresSetup Scenarios.plain_recipe = false
  /\ (forall w, Vader.setup Scenarios.plain_recipe w = Returned true w)
  /\ (forall already w,
        Vader.setup_phase Scenarios.plain_recipe already w
        = Returned (true, false) w).
Proof.
  apply (base_class_defaults Scenarios.plain_recipe). split; reflexivity.
Defined.

End InterfaceFacts.

(* ===================================================================== *)
(** * The resolver *)
(* ===================================================================== *)

Module ResolverFacts.

Import Resolver.
Local Open Scope list_scope.

Lemma produced_snoc plan s : produced (plan ++ [s]) = produced plan ++ [step_var s].
Proof. unfold produced. by rewrite fmap_app. Qed.

Lemma remove_dups_NoDup {T} `{EqDecision T} (l : list T) :
  NoDup l -> remove_dups l = l.
Proof.
  induction 1 as [|x l Hx _ IH]; simpl; [done|].
  destruct (decide_rel elem_of x l); [done|]. by rewrite IH.
Qed.

Section Soundness.

Variable aborts : Error -> bool.
Variable reg : gmap string Unit.
Variable A : gset string.
Variable C : gmap string (list string).

Abbreviation consistent := (Resolver.consistent reg A C).
Abbreviation resolves := (Resolver.resolves reg A C).

Lemma consistent_empty : consistent {| resolved := ∅; working_plan := [] |}.
Proof.
  repeat split; simpl.
  - set_solver.
  - set_solver.
  - constructor.
  - intros k s i Hk. by rewrite lookup_nil in Hk.
  - intros s Hs. by apply elem_of_nil in Hs.
  - intros s Hs. by apply elem_of_nil in Hs.
Qed.

Lemma extends_refl stack st : extends stack st st.
Proof.
  exists []. split; [by rewrite app_nil_r|]. intros s Hs. by apply elem_of_nil in Hs.
Qed.

Lemma extends_trans stack st1 st2 st3 :
  extends stack st1 st2 -> extends stack st2 st3 -> extends stack st1 st3.
Proof.
  intros (n1 & H1 & Hn1) (n2 & H2 & Hn2). exists (n1 ++ n2). split.
  - by rewrite H2, H1, app_assoc.
  - intros s [?|?]%elem_of_app; auto.
Qed.

Lemma extends_weaken stack v st st' :
  extends (v :: stack) st st' -> extends stack st st'.
Proof.
  intros (new & H & Hn). exists new. split; [done|].
  intros s Hs Hin. apply (Hn s Hs). by apply elem_of_cons; right.
Qed.

(** Along an extension the resolved set only grows, and what is new is not
    on the stack. *)
Lemma extends_resolved stack st st' x :
  consistent st -> consistent st' -> extends stack st st' ->
  x ∈ resolved st -> x ∈ resolved st'.
Proof.
  intros (Hr & _) (Hr' & _) (new & Hnew & _) Hx.
  apply Hr'. rewrite Hnew. unfold produced. rewrite fmap_app.
  apply elem_of_app. left. by apply Hr.
Qed.

Lemma extends_fresh stack st st' x :
  consistent st -> consistent st' -> extends stack st st' ->
  x ∈ stack -> x ∉ resolved st -> x ∉ resolved st'.
Proof.
  intros (Hr & _) (Hr' & _) (new & Hnew & Hfresh) Hstack Hx Hx'.
  apply Hr' in Hx'. rewrite Hnew in Hx'. unfold produced in Hx'.
  rewrite fmap_app in Hx'. apply elem_of_app in Hx' as [Hx'|Hx'].
  - apply Hx. by apply Hr.
  - apply list_elem_of_fmap in Hx' as (s & -> & Hs). by apply (Hfresh s Hs).
Qed.

Lemma commit_consistent v u st :
  consistent st -> v ∉ A -> v ∉ resolved st ->
  (forall i, i ∈ unit_ingredients u -> i ∈ A \/ i ∈ resolved st) ->
  (exists cands c, C !! v = Some cands /\ c ∈ cands /\ reg !! c = Some u) ->
  consistent (commit v u st).
Proof.
  intros (Hr & Hnd & Hord & Hav & Hcb) HvA Hv Hing Hcand.
  unfold Resolver.consistent, commit. simpl.
  split; [|split; [|split; [|split]]].
  - intros x. rewrite produced_snoc, elem_of_app, elem_of_union, Hr. simpl.
    rewrite elem_of_singleton, list_elem_of_singleton. tauto.
  - unfold accepted_once. rewrite produced_snoc. simpl.
    apply NoDup_app. split; [done|]. split; [|apply NoDup_singleton].
    intros x Hx ->%list_elem_of_singleton. apply Hv. by apply Hr.
  - intros k s i Hk Hi.
    destruct (decide (k < length (working_plan st))%nat) as [Hlt|Hge].
    + rewrite lookup_app_l in Hk by done.
      destruct (Hord k s i Hk Hi) as [?|(k' & s' & Hk' & Hs' & Heq)]; [by left|].
      right. exists k', s'. split; [done|]. split; [|done].
      rewrite lookup_app_l; [done|lia].
    + rewrite lookup_app_r in Hk by lia.
      destruct (k - length (working_plan st))%nat eqn:Hd; simpl in Hk; [|done].
      injection Hk as <-. simpl in Hi.
      destruct (Hing i Hi) as [?|Hres]; [by left|]. right.
      apply Hr in Hres. unfold produced in Hres.
      apply list_elem_of_fmap in Hres as (s' & -> & Hs').
      apply list_elem_of_lookup in Hs' as (k' & Hk').
      exists k', s'. split; [|split; [|done]].
      * apply lookup_lt_Some in Hk'. lia.
      * by apply lookup_app_l_Some.
  - intros s [Hs|Hs%list_elem_of_singleton]%elem_of_app; [by apply Hav|].
    by subst s.
  - intros s [Hs|Hs%list_elem_of_singleton]%elem_of_app; [by apply Hcb|].
    by subst s.
Qed.

Lemma extends_commit stack v u st :
  v ∉ stack -> extends stack st (commit v u st).
Proof.
  intros Hv. exists [ {| step_var := v; step_unit := u |} ]. split; [done|].
  intros s ->%list_elem_of_singleton. done.
Qed.

Lemma resolve_all_sound stack rec vars :
  resolves stack rec ->
  forall st st',
    consistent st -> resolve_all rec vars st = Done st' ->
    consistent st' /\ extends stack st st'
    /\ forall i, i ∈ vars -> i ∈ A \/ i ∈ resolved st'.
Proof.
  intros Hrec. induction vars as [|v vars IH]; intros st st' Hst Hrun; simpl in Hrun.
  - injection Hrun as <-. split; [done|]. split; [apply extends_refl|].
    intros i Hi. by apply elem_of_nil in Hi.
  - destruct (rec v st) as [st1| |] eqn:Hv; try done.
    destruct (Hrec v st st1 Hst Hv) as (Hst1 & Hext1 & Hv1).
    destruct (IH st1 st' Hst1 Hrun) as (Hst' & Hext' & Hall).
    split; [done|]. split; [by eapply extends_trans|].
    intros i [->|Hi]%elem_of_cons; [|by apply Hall].
    destruct Hv1 as [?|Hres]; [by left|]. right.
    exact (extends_resolved stack st1 st' v Hst1 Hst' Hext' Hres).
Qed.

Lemma try_candidate_sound stack rec v c cands st st' :
  resolves (v :: stack) rec ->
  consistent st -> v ∉ A -> v ∉ resolved st -> v ∉ stack ->
  C !! v = Some cands -> c ∈ cands ->
  try_candidate reg rec v c st = Done st' ->
  consistent st' /\ extends stack st st' /\ v ∈ resolved st'.
Proof.
  intros Hrec Hst HvA Hv Hvs HC Hc. unfold try_candidate, create.
  destruct (reg !! c) as [u|] eqn:Hu; [|done].
  destruct (resolve_all rec (unit_ingredients u) st) as [st1| |] eqn:Hall;
    try done.
  intros [= <-].
  destruct (resolve_all_sound (v :: stack) rec _ Hrec st st1 Hst Hall)
    as (Hst1 & Hext & Hing).
  assert (v ∉ resolved st1) as Hv1.
  { eapply extends_fresh; [exact Hst|exact Hst1|exact Hext| |done].
    by apply elem_of_cons; left. }
  split; [|split].
  - apply commit_consistent; eauto.
  - eapply extends_trans; [by eapply extends_weaken|by apply extends_commit].
  - simpl. set_solver.
Qed.

Lemma try_candidates_sound stack rec v cands :
  resolves (v :: stack) rec ->
  forall tried attempts st st',
    consistent st -> v ∉ A -> v ∉ resolved st -> v ∉ stack ->
    C !! v = Some (tried ++ cands) ->
    try_candidates aborts reg rec v cands attempts st = Done st' ->
    consistent st' /\ extends stack st st' /\ v ∈ resolved st'.
Proof.
  intros Hrec. induction cands as [|c cands IH];
    intros tried attempts st st' Hst HvA Hv Hvs HC Hrun; simpl in Hrun; [done|].
  destruct (try_candidate reg rec v c st) as [st1|e|] eqn:Hc; try done.
  - injection Hrun as <-.
    eapply try_candidate_sound; eauto.
    apply elem_of_app. right. by apply elem_of_cons; left.
  - destruct (aborts e); [done|].
    eapply (IH (tried ++ [c])); eauto. by rewrite <- app_assoc.
Qed.

Lemma resolve_variable_sound fuel :
  forall stack, resolves stack (resolve_variable aborts reg A C fuel stack).
Proof.
  induction fuel as [|fuel IH]; intros stack v st st' Hst Hrun; simpl in Hrun;
    [done|].
  destruct (bool_decide (v ∈ A \/ v ∈ resolved st)) eqn:Hknown.
  - injection Hrun as <-. apply bool_decide_eq_true in Hknown.
    split; [done|]. split; [apply extends_refl|done].
  - apply bool_decide_eq_false in Hknown.
    destruct (bool_decide (v ∈ stack)) eqn:Hstack; [done|].
    apply bool_decide_eq_false in Hstack.
    destruct (C !! v) as [cands|] eqn:HC; [|done].
    destruct (try_candidates_sound stack _ v cands (IH (v :: stack)) []
                [] st st') as (Hst' & Hext & Hv); auto.
Qed.

(** ** Termination: the fuel is enough *)

Lemma resolve_all_fuel rec vars :
  (forall i st, rec i st <> OutOfFuel) ->
  forall st, resolve_all rec vars st <> OutOfFuel.
Proof.
  intros Hrec. induction vars as [|v vars IH]; intros st; simpl; [done|].
  destruct (rec v st) as [st1|e|] eqn:Hv; [apply IH|done|by apply Hrec in Hv].
Qed.

Lemma try_candidates_fuel rec v cands :
  (forall i st, rec i st <> OutOfFuel) ->
  forall attempts st,
    try_candidates aborts reg rec v cands attempts st <> OutOfFuel.
Proof.
  intros Hrec. induction cands as [|c cands IH]; intros attempts st; simpl;
    [done|].
  unfold try_candidate.
  destruct (create reg c) as [e|u].
  - destruct (aborts e); [done|apply IH].
  - pose proof (resolve_all_fuel rec (unit_ingredients u) Hrec st) as Hall.
    destruct (resolve_all rec (unit_ingredients u) st) as [st1|e|]; try done.
    destruct (aborts e); [done|apply IH].
Qed.

(** Distinct keys of the cookbook: there are at most [size C] of them. *)
Lemma stack_bound (stack : list string) :
  NoDup stack -> (forall x, x ∈ stack -> is_Some (C !! x)) ->
  (length stack <= size C)%nat.
Proof.
  intros Hnd Hkeys.
  rewrite <- (size_list_to_set (C := gset string) stack Hnd).
  rewrite <- (size_dom (D := gset string) C).
  apply subseteq_size. intros x Hx%elem_of_list_to_set.
  apply elem_of_dom. by apply Hkeys.
Qed.

Lemma resolve_variable_fuel fuel :
  forall stack v st,
    NoDup stack -> (forall x, x ∈ stack -> is_Some (C !! x)) ->
    (size C < fuel + length stack)%nat ->
    resolve_variable aborts reg A C fuel stack v st <> OutOfFuel.
Proof.
  induction fuel as [|fuel IH]; intros stack v st Hnd Hkeys Hfuel; simpl.
  - pose proof (stack_bound stack Hnd Hkeys). lia.
  - destruct (bool_decide (v ∈ A \/ v ∈ resolved st)); [done|].
    destruct (bool_decide (v ∈ stack)) eqn:Hstack; [done|].
    apply bool_decide_eq_false in Hstack.
    destruct (C !! v) as [cands|] eqn:HC; [|done].
    apply try_candidates_fuel. intros i st1. apply IH.
    + by apply NoDup_cons.
    + intros x [->|Hx]%elem_of_cons; [by rewrite HC|by apply Hkeys].
    + simpl. lia.
Qed.

(** ** The errors of a resolution *)

Lemma resolve_all_errors rec vars :
  fails_as_documented rec ->
  forall st e, resolve_all rec vars st = Failed e ->
               resolution_kind (kind e) = true.
Proof.
  intros Hrec. induction vars as [|v vars IH]; intros st e; simpl; [done|].
  destruct (rec v st) as [st1|e1|] eqn:Hv; [apply IH| |done].
  intros [= <-]. by eapply Hrec.
Qed.

Lemma try_candidates_errors rec v cands :
  fails_as_documented rec ->
  forall attempts st e,
    try_candidates aborts reg rec v cands attempts st = Failed e ->
    resolution_kind (kind e) = true.
Proof.
  intros Hrec. induction cands as [|c cands IH]; intros attempts st e; simpl.
  - by intros [= <-].
  - unfold try_candidate, create. destruct (reg !! c) as [u|].
    + destruct (resolve_all rec (unit_ingredients u) st) as [st1|e1|] eqn:Hall;
        try done.
      destruct (aborts e1); [|apply IH].
      intros [= <-]. by eapply resolve_all_errors.
    + destruct (aborts (UnknownUnit c)); [|apply IH]. by intros [= <-].
Qed.

Lemma resolve_variable_errors fuel :
  forall stack,
    fails_as_documented (resolve_variable aborts reg A C fuel stack).
Proof.
  induction fuel as [|fuel IH]; intros stack v st e; simpl; [done|].
  destruct (bool_decide (v ∈ A \/ v ∈ resolved st)); [done|].
  destruct (bool_decide (v ∈ stack)); [by intros [= <-]|].
  destruct (C !! v) as [cands|]; [|by intros [= <-]].
  apply try_candidates_errors. apply IH.
Qed.

End Soundness.

(** [resolve] never runs out of the fuel it gives itself, fails only with
    the errors of a resolution, and returns plans that are sound with respect
    to the variables the units were accepted for; this holds for every
    policy, registry, available set, cookbook and request list. *)
Lemma resolve_sound
    (aborts : Error -> bool) (reg : gmap string Unit) (A : gset string)
    (C : gmap string (list string)) (R : list string) :
  match resolve aborts reg A C R with
  | OutOfFuel => False
  | Failed e => resolution_kind (kind e) = true
  | Done plan =>
      accepted_once plan
      /\ ingredients_first A plan
      /\ nothing_available_produced A plan
      /\ from_cookbook reg C plan
      /\ (forall r, r ∈ R -> r ∈ A \/ r ∈ produced plan)
  end.
Proof.
  unfold resolve.
  destruct (resolve_all _ R _) as [st|e|] eqn:Hrun.
  - destruct (resolve_all_sound reg A C [] _ R
                (resolve_variable_sound aborts reg A C (enough_fuel C) [])
                _ st (consistent_empty reg A C) Hrun)
      as ((Hres & Hnd & Hord & Hav & Hcb) & _ & Hreq).
    rewrite (remove_dups_NoDup (working_plan st))
      by (by apply (NoDup_fmap_1 step_var)).
    repeat split; try done.
    intros r Hr. destruct (Hreq r Hr) as [?|?]; [by left|right]. by apply Hres.
  - by eapply (resolve_all_errors _ R
                 (resolve_variable_errors aborts reg A C _ [])).
  - eapply resolve_all_fuel; [|exact Hrun]. intros i st.
    apply resolve_variable_fuel.
    + constructor.
    + intros x Hx. by apply elem_of_nil in Hx.
    + unfold enough_fuel. simpl. lia.
Qed.

(** With a consistent cookbook, the variable of a step is the product of its
    unit. *)
Lemma from_cookbook_products reg C plan :
  cookbook_consistent reg C -> from_cookbook reg C plan ->
  products plan = produced plan.
Proof.
  intros Hcons Hcb. unfold products, produced.
  apply list_fmap_ext. intros k s Hs.
  destruct (Hcb s) as (cands & c & HC & Hc & Hu);
    [by eapply list_elem_of_lookup_2|].
  by eapply Hcons.
Qed.

(** C2, as amended.  For every policy, registry, available set and request
    list, and every cookbook that lists each unit under the variable that is
    its product: [resolve] never runs out of fuel, and it either fails with
    one error, whose kind is [UnknownUnit], [UnresolvableVariable] or
    [CyclicDependency], or returns a plan in which no two units have the same
    product, every ingredient of a unit is available or the product of an
    earlier unit, no product was available from the start, and every
    requested variable is available or a product. *)
Theorem resolve_terminates_with_sound_plan
    (aborts : Error -> bool) (reg : gmap string Unit) (A : gset string)
    (C : gmap string (list string)) (R : list string) :
  cookbook_consistent reg C ->
  match resolve aborts reg A C R with
  | OutOfFuel => False
  | Failed e => resolution_kind (kind e) = true
  | Done plan =>
      unique_products plan
      /\ ingredient_before_product A plan
      /\ (forall s, s ∈ plan -> unit_product (step_unit s) ∉ A)
      /\ (forall r, r ∈ R -> r ∈ A \/ r ∈ products plan)
  end.
Proof.
  intros Hcons. pose proof (resolve_sound aborts reg A C R) as Hsound.
  destruct (resolve aborts reg A C R) as [plan|e|]; [|done|done].
  destruct Hsound as (Hnd & Hord & Hav & Hcb & Hreq).
  pose proof (from_cookbook_products reg C plan Hcons Hcb) as Hprod.
  assert (forall s, s ∈ plan -> unit_product (step_unit s) = step_var s)
    as Hstep.
  { intros s Hs. destruct (Hcb s Hs) as (cands & c & HC & Hc & Hu).
    by eapply Hcons. }
  split; [|split; [|split]].
  - unfold unique_products. by rewrite Hprod.
  - intros k s i Hk Hi.
    destruct (Hord k s i Hk Hi) as [?|(k' & s' & Hlt & Hk' & Hv)]; [by left|].
    right. exists k', s'. split; [done|]. split; [done|].
    rewrite Hstep; [done|]. by eapply list_elem_of_lookup_2.
  - intros s Hs. rewrite (Hstep s Hs). by apply Hav.
  - intros r Hr. rewrite Hprod. by apply Hreq.
Qed.

Lemma scenario1_cookbook_consistent :
  cookbook_consistent Scenarios.scenario1_registry Scenarios.scenario1_cookbook.
Proof.
  intros v cands c u HC Hc Hu.
  unfold Scenarios.scenario1_cookbook, Scenarios.scenario1_registry in *.
  apply lookup_singleton_Some in HC as [<- <-].
  apply list_elem_of_singleton in Hc as ->.
  apply lookup_singleton_Some in Hu as [_ <-]. reflexivity.
Qed.

Lemma resolve_terminates_with_sound_plan_witness :
  match resolve cycles_abort Scenarios.scenario1_registry {[ "theta"; "exner" ]}
          Scenarios.scenario1_cookbook ["air_temperature"] with
  | OutOfFuel => False
  | Failed e => resolution_kind (kind e) = true
  | Done plan =>
      unique_products plan
      /\ ingredient_before_product {[ "theta"; "exner" ]} plan
      /\ (forall s, s ∈ plan ->
            unit_product (step_unit s) ∉ ({[ "theta"; "exner" ]} : gset string))
      /\ (forall r, r ∈ ["air_temperature"] ->
            r ∈ ({[ "theta"; "exner" ]} : gset string) \/ r ∈ products plan)
  end.
Proof.
  apply (resolve_terminates_with_sound_plan cycles_abort
           Scenarios.scenario1_registry {[ "theta"; "exner" ]}
           Scenarios.scenario1_cookbook ["air_temperature"]).
  exact scenario1_cookbook_consistent.
Defined.

(** C2, as stated, fails: a cookbook may list two units that have the same
    product under two different variables; both are accepted, and the plan
    holds two units that produce ["z"]. *)
Lemma resolve_duplicate_products :
  resolve cycles_abort Scenarios.twin_registry ∅ Scenarios.twin_cookbook
    ["x"; "y"]
  = Done [ {| step_var := "x"; step_unit := Scenarios.Twin_A |};
           {| step_var := "y"; step_unit := Scenarios.Twin_B |} ]
  /\ ~ unique_products
        [ {| step_var := "x"; step_unit := Scenarios.Twin_A |};
          {| step_var := "y"; step_unit := Scenarios.Twin_B |} ].
Proof.
  split; [vm_compute; reflexivity|].
  unfold unique_products, products. simpl.
  intros Hnd. apply NoDup_cons in Hnd as [Hnot _].
  apply Hnot. by apply list_elem_of_singleton.
Qed.

(** Scenarios 1 to 3 of the design document. *)
Example resolve_scenarios :
  resolve cycles_abort Scenarios.registry {[ "theta"; "exner" ]}
    (VaderParams.default_cookbook Scenarios.recipe_names) ["air_temperature"]
  = Done [ {| step_var := "air_temperature";
              step_unit := Scenarios.AirTemperature_A |} ]
  /\ resolve cycles_abort Scenarios.registry {[ "theta"; "exner" ]}
       (VaderParams.default_cookbook Scenarios.recipe_names) ["wind_speed"]
     = Failed (UnresolvableVariable "wind_speed" [])
  /\ resolve cycles_abort Scenarios.registry ∅
       {[ "x" := ["SelfReferential"] ]} ["x"]
     = Failed (CyclicDependency "x" ["x"]).
Proof. repeat split; vm_compute; reflexivity. Qed.

End ResolverFacts.

(* ===================================================================== *)
(** * Further properties of the kernels *)
(* ===================================================================== *)

Module MoreKernelFacts.

Import AtlasFacts ExecFacts PointwiseFacts DoubleFacts KernelFacts.
Local Open Scope double_scope.

(** In a set whose names are distinct, the field at a position is the one its
    name leads to. *)
Lemma fs_lookup_at (fs : FieldSet) (k : nat) name f :
  NoDup (names fs) -> fs !! k = Some (name, f) -> fs_lookup name fs = Some f.
Proof.
  unfold names. revert k.
  induction fs as [|[n g] rest IH]; intros k Hnd Hk; [done|].
  simpl in Hnd. apply NoDup_cons in Hnd as [Hn Hnd]. simpl.
  destruct k as [|k]; simpl in Hk.
  - injection Hk as -> ->. by rewrite decide_True.
  - rewrite decide_False; [by eapply IH|].
    intros ->. apply Hn. apply list_elem_of_fmap. exists (name, f).
    split; [done|]. by eapply list_elem_of_lookup_2.
Qed.

Lemma field_at_returned (k : nat) w name f :
  w_fields w !! k = Some (name, f) -> field_at k w = Returned name w.
Proof. intros H. unfold field_at. by rewrite H. Qed.

Lemma field_at_thrown (k : nat) w :
  w_fields w !! k = None -> field_at k w = Thrown (FieldIndexOutOfRange k) w.
Proof.
  intros H. unfold field_at.
  change (@lookup nat (string * Field) FieldSet _ k (w_fields w) = None) in H.
  destruct (w_fields w !! k) as [[? ?]|]; [discriminate H|reflexivity].
Qed.

(** [evalRatioToMt]: the quotient is written over the horizontal points of
    the function space of [vars[1]] and over as many levels as the second
    field of the set has. *)
Lemma evalRatioToMt_run w x t r fx ft fr n1 f1 :
  r <> x -> r <> t ->
  fs_lookup x (w_fields w) = Some fx ->
  fs_lookup t (w_fields w) = Some ft ->
  fs_lookup r (w_fields w) = Some fr ->
  w_fields w !! 1%nat = Some (n1, f1) ->
  fs_lookup n1 (w_fields w) = Some f1 ->
  exists d,
    Mo.evalRatioToMt [x; t; r] w
    = Returned true
        {| w_fields := fs_update r (set_data d) (w_fields w);
           w_trace := (w_trace w ++ ["[evalRatioToMt()] starting ..."]
                       ++ ["[evalRatioToMt()] ... exit"])%list;
           w_error := w_error w |}
    /\ (forall i j, (0 <= i < shape0 ft)%Z -> (0 <= j < levels f1)%Z ->
          d i j = data fx i j / data ft i j)
    /\ (forall i j, ~ ((0 <= i < shape0 ft)%Z /\ (0 <= j < levels f1)%Z) ->
          d i j = data fr i j).
Proof.
  intros Hrx Hrt Hx Ht Hr H1 Hn1.
  set (w1 := {| w_fields := w_fields w;
                w_trace := (w_trace w ++ ["[evalRatioToMt()] starting ..."])%list;
                w_error := w_error w |}).
  set (G := fun i j => data fx i j / data ft i j).
  set (functor := fun i j : idx_t =>
      bind (view_get x i j) (fun xv =>
      bind (view_get t i j) (fun tv =>
      view_set r i j (xv / tv)))).
  assert (writes_cell r (w_fields w1) w1 G functor) as Hf.
  { intros i j d. exists (array_set d i j (G i j)). split; [|split].
    - unfold functor. do 2 cell_read. by eapply view_set_target.
    - apply array_set_eq.
    - intros. by apply array_set_ne. }
  destruct (parallelFor_on_field r w1 fr G functor (functionspace ft)
              {| conf_levels := levels f1; include_halo := true |} Hr Hf)
    as (d & Hpar & Hin & Hout).
  exists d. split; [|split; [exact Hin|exact Hout]].
  unfold Mo.evalRatioToMt.
  change ([x; t; r] !!! 0%nat) with x.
  change ([x; t; r] !!! 1%nat) with t.
  change ([x; t; r] !!! 2%nat) with r.
  step. do 8 step.
  erewrite bind_returned by (by apply (field_at_returned 1 _ n1 f1)).
  cbv beta zeta. step. fold functor. fold w1.
  erewrite bind_returned by exact Hpar. cbv beta.
  step. unfold ret, target_is, set_fields. simpl.
  by rewrite <- app_assoc.
Qed.

(** Within the bounds, a cell outside the shape of the product is outside the
    loop. *)
Lemma ratio_in_bounds_outside fx ft fr f1 i j :
  ratio_in_bounds fx ft fr f1 ->
  ~ ((0 <= i < shape0 fr)%Z /\ (0 <= j < levels fr)%Z) ->
  ~ ((0 <= i < shape0 ft)%Z /\ (0 <= j < levels f1)%Z).
Proof. unfold ratio_in_bounds. lia. Qed.

(** X1.  [evalRatioToMt] on distinct field names, when the three fields have
    the cells of the loop: it returns [true] and stores [vars[0] / vars[1]]
    in the cells of [vars[2]] whose horizontal index is in the function space
    of [vars[1]] and whose level is below the number of levels of the second
    field of the set; every other cell of the product is left as it was,
    nothing is stored outside its shape, and every other field is left as it
    was. *)
Theorem evalRatioToMt_quotient w x t r fx ft fr n1 f1 :
  NoDup (names (w_fields w)) ->
  r <> x -> r <> t ->
  fs_lookup x (w_fields w) = Some fx ->
  fs_lookup t (w_fields w) = Some ft ->
  fs_lookup r (w_fields w) = Some fr ->
  w_fields w !! 1%nat = Some (n1, f1) ->
  ratio_in_bounds fx ft fr f1 ->
  exists w' fr',
    Mo.evalRatioToMt [x; t; r] w = Returned true w'
    /\ fs_lookup r (w_fields w') = Some fr'
    /\ (forall i j, (0 <= i < shape0 ft)%Z -> (0 <= j < levels f1)%Z ->
          data fr' i j = data fx i j / data ft i j)
    /\ (forall i j, ~ ((0 <= i < shape0 ft)%Z /\ (0 <= j < levels f1)%Z) ->
          data fr' i j = data fr i j)
    /\ (forall i j, ~ ((0 <= i < shape0 fr)%Z /\ (0 <= j < levels fr)%Z) ->
          data fr' i j = data fr i j)
    /\ (forall name, name <> r ->
          fs_lookup name (w_fields w') = fs_lookup name (w_fields w)).
Proof.
  intros Hnd Hrx Hrt Hx Ht Hr H1 Hb.
  pose proof (fs_lookup_at _ _ _ _ Hnd H1) as Hn1.
  destruct (evalRatioToMt_run w x t r fx ft fr n1 f1 Hrx Hrt Hx Ht Hr H1 Hn1)
    as (d & Hrun & Hin & Hout).
  eexists _, (set_data d fr). split; [exact Hrun|].
  split; [|split; [exact Hin|split; [exact Hout|split]]].
  - simpl. by rewrite fs_lookup_update_eq, Hr.
  - intros i j Hno. cbn [data set_data]. apply Hout.
    by eapply ratio_in_bounds_outside.
  - intros name Hne. simpl. by rewrite fs_lookup_update_ne.
Qed.

Lemma evalRatioToMt_quotient_witness :
  exists w' fr',
    Mo.evalRatioToMt ["m_v"; "m_t"; "q"] MoreScenarios.ratio_world
    = Returned true w'
    /\ fs_lookup "q" (w_fields w') = Some fr'
    /\ data fr' 0%Z 0%Z = decimal 25 2.
Proof.
  assert (0 <= 0 < 1)%Z as Hin by (split; [discriminate|reflexivity]).
  destruct (evalRatioToMt_quotient MoreScenarios.ratio_world "m_v" "m_t" "q"
              (Scenarios.one_cell (decimal 5 1) ∅)
              (Scenarios.one_cell (of_Z 2) ∅)
              (Scenarios.one_cell (decimal 0 1) ∅)
              "m_t" (Scenarios.one_cell (of_Z 2) ∅))
    as (w' & fr' & Hrun & Hlook & Hcells & _); try reflexivity;
    try (repeat split; vm_compute; discriminate); try done.
  { compute_done. }
  exists w', fr'. split; [exact Hrun|]. split; [exact Hlook|].
  rewrite (Hcells 0%Z 0%Z Hin Hin). vm_compute. reflexivity.
Defined.

(** The common shape of the four ratio kernels: validate the three names,
    call [evalRatioToMt] on them, return its result. *)
Lemma ratio_wrapper_run start stop w x t r fx ft fr n1 f1 :
  r <> x -> r <> t ->
  fs_lookup x (w_fields w) = Some fx ->
  fs_lookup t (w_fields w) = Some ft ->
  fs_lookup r (w_fields w) = Some fr ->
  w_fields w !! 1%nat = Some (n1, f1) ->
  fs_lookup n1 (w_fields w) = Some f1 ->
  exists d,
    bind (log_trace start) (fun _ =>
    bind (checkFieldSetContent [x; t; r]) (fun _ =>
    bind (Mo.evalRatioToMt [x; t; r]) (fun rvalue =>
    bind (log_trace stop) (fun _ => ret rvalue)))) w
    = Returned true
        {| w_fields := fs_update r (set_data d) (w_fields w);
           w_trace := (((w_trace w ++ [start])
                        ++ ["[evalRatioToMt()] starting ..."]
                        ++ ["[evalRatioToMt()] ... exit"]) ++ [stop])%list;
           w_error := w_error w |}
    /\ (forall i j, (0 <= i < shape0 ft)%Z -> (0 <= j < levels f1)%Z ->
          d i j = data fx i j / data ft i j)
    /\ (forall i j, ~ ((0 <= i < shape0 ft)%Z /\ (0 <= j < levels f1)%Z) ->
          d i j = data fr i j).
Proof.
  intros Hrx Hrt Hx Ht Hr H1 Hn1.
  set (w1 := {| w_fields := w_fields w;
                w_trace := (w_trace w ++ [start])%list;
                w_error := w_error w |}).
  destruct (evalRatioToMt_run w1 x t r fx ft fr n1 f1 Hrx Hrt Hx Ht Hr H1 Hn1)
    as (d & Hrun & Hin & Hout).
  exists d. split; [|split; [exact Hin|exact Hout]].
  step. check_passes. fold w1.
  erewrite bind_returned by exact Hrun. cbv beta.
  step. reflexivity.
Qed.

(** What a ratio kernel does on a field set with distinct names that holds
    its three fields. *)
Lemma ratio_kernels_run kernel x t r w fx ft fr n1 f1 :
  (kernel, (x, t, r)) ∈ ratio_kernels ->
  NoDup (names (w_fields w)) ->
  fs_lookup x (w_fields w) = Some fx ->
  fs_lookup t (w_fields w) = Some ft ->
  fs_lookup r (w_fields w) = Some fr ->
  w_fields w !! 1%nat = Some (n1, f1) ->
  exists w' d,
    kernel w = Returned true w'
    /\ w_fields w' = fs_update r (set_data d) (w_fields w)
    /\ w_error w' = w_error w
    /\ (forall i j, (0 <= i < shape0 ft)%Z -> (0 <= j < levels f1)%Z ->
          d i j = data fx i j / data ft i j)
    /\ (forall i j, ~ ((0 <= i < shape0 ft)%Z /\ (0 <= j < levels f1)%Z) ->
          d i j = data fr i j).
Proof.
  intros Hk Hnd Hx Ht Hr H1.
  pose proof (fs_lookup_at _ _ _ _ Hnd H1) as Hn1.
  unfold ratio_kernels in Hk.
  repeat (apply elem_of_cons in Hk as [Hk|Hk]);
    [..|by apply elem_of_nil in Hk];
    injection Hk as -> -> -> ->;
    match goal with
    | |- context [?k w = _] =>
        let start := match k with
                     | Mo.evalSpecificHumidity =>
                         constr:("[evalSpecificHumidity()] starting ...")
                     | Mo.evalMassCloudIce =>
                         constr:("[evalMassCloudIce()] starting ...")
                     | Mo.evalMassCloudLiquid =>
                         constr:("[evalMassCloudLiquid()] starting ...")
                     | Mo.evalMassRain =>
                         constr:("[evalMassRain()] starting ...")
                     end in
        let stop := match k with
                    | Mo.evalSpecificHumidity =>
                        constr:("[evalSpecificHumidity()] ... exit")
                    | Mo.evalMassCloudIce =>
                        constr:("[evalMassCloudIce()] ... exit")
                    | Mo.evalMassCloudLiquid =>
                        constr:("[evalMassCloudLiquid()] ... exit")
                    | Mo.evalMassRain =>
                        constr:("[evalMassRain()] ... exit")
                    end in
        match type of Hx with fs_lookup ?x _ = _ =>
        match type of Ht with fs_lookup ?t _ = _ =>
        match type of Hr with fs_lookup ?r _ = _ =>
          destruct (ratio_wrapper_run start stop w x t r fx ft fr n1 f1)
            as (d & Hrun & Hin & Hout);
            [done|done|exact Hx|exact Ht|exact Hr|exact H1|exact Hn1|];
          eexists _, d; split; [exact Hrun|]; by repeat split
        end end end
    end.
Qed.

(** X2.  Each of [evalSpecificHumidity], [evalMassCloudIce],
    [evalMassCloudLiquid] and [evalMassRain], on a field set with distinct
    names that holds its three fields, each with the cells of the loop,
    returns [true], logs no error and stores [m_x / m_t] in the cells of its
    product whose level is below the number of levels of the second field of
    the set, whichever field that is; the other cells of the product are left
    as they were, nothing is stored outside its shape, and the other fields
    are left as they were. *)
Theorem ratio_kernels_quotient kernel x t r w fx ft fr n1 f1 :
  (kernel, (x, t, r)) ∈ ratio_kernels ->
  NoDup (names (w_fields w)) ->
  fs_lookup x (w_fields w) = Some fx ->
  fs_lookup t (w_fields w) = Some ft ->
  fs_lookup r (w_fields w) = Some fr ->
  w_fields w !! 1%nat = Some (n1, f1) ->
  ratio_in_bounds fx ft fr f1 ->
  exists w' fr',
    kernel w = Returned true w'
    /\ w_error w' = w_error w
    /\ fs_lookup r (w_fields w') = Some fr'
    /\ (forall i j, (0 <= i < shape0 ft)%Z -> (0 <= j < levels f1)%Z ->
          data fr' i j = data fx i j / data ft i j)
    /\ (forall i j, ~ ((0 <= i < shape0 ft)%Z /\ (0 <= j < levels f1)%Z) ->
          data fr' i j = data fr i j)
    /\ (forall i j, ~ ((0 <= i < shape0 fr)%Z /\ (0 <= j < levels fr)%Z) ->
          data fr' i j = data fr i j)
    /\ (forall name, name <> r ->
          fs_lookup name (w_fields w') = fs_lookup name (w_fields w)).
Proof.
  intros Hk Hnd Hx Ht Hr H1 Hb.
  destruct (ratio_kernels_run kernel x t r w fx ft fr n1 f1 Hk Hnd Hx Ht Hr H1)
    as (w' & d & Hrun & Hfs & Herr & Hin & Hout).
  exists w', (set_data d fr). split; [exact Hrun|]. split; [exact Herr|].
  rewrite Hfs. split; [|split; [exact Hin|split; [exact Hout|split]]].
  - by rewrite fs_lookup_update_eq, Hr.
  - intros i j Hno. cbn [data set_data]. apply Hout.
    by eapply ratio_in_bounds_outside.
  - intros name Hne. by rewrite fs_lookup_update_ne.
Qed.

Lemma ratio_kernels_quotient_witness :
  exists w' fr',
    Mo.evalSpecificHumidity (MoreScenarios.humidity_world (of_Z 2))
    = Returned true w'
    /\ fs_lookup "specific_humidity" (w_fields w') = Some fr'
    /\ data fr' 0%Z 0%Z = decimal 25 2.
Proof.
  assert (0 <= 0 < 1)%Z as Hin by (split; [discriminate|reflexivity]).
  destruct (ratio_kernels_quotient Mo.evalSpecificHumidity
              "m_v" "m_t" "specific_humidity"
              (MoreScenarios.humidity_world (of_Z 2))
              (Scenarios.one_cell (decimal 5 1) ∅)
              (Scenarios.one_cell (of_Z 2) ∅)
              (Scenarios.one_cell (decimal 0 1) ∅)
              "m_t" (Scenarios.one_cell (of_Z 2) ∅))
    as (w' & fr' & Hrun & _ & Hlook & Hcells & _); try reflexivity.
  { apply elem_of_cons. by left. }
  { compute_done. }
  { repeat split; vm_compute; discriminate. }
  exists w', fr'. split; [exact Hrun|]. split; [exact Hlook|].
  rewrite (Hcells 0%Z 0%Z Hin Hin). vm_compute. reflexivity.
Defined.

Lemma div_by_zero a s :
  match a / S754_zero s with
  | S754_nan | S754_infinity _ => True
  | _ => False
  end.
Proof. by destruct a as [[]|[]| |[] m e], s. Qed.

(** X3.  The ratio kernels do not guard the division: on a field set whose
    three fields have the cells of the loop, where the total mass is a zero,
    the cell of the product receives an infinity or a NaN, never a finite
    number, and the kernel still returns [true] without logging an error. *)
Theorem ratio_kernels_zero_total_mass kernel x t r w fx ft fr n1 f1 i j s :
  (kernel, (x, t, r)) ∈ ratio_kernels ->
  NoDup (names (w_fields w)) ->
  fs_lookup x (w_fields w) = Some fx ->
  fs_lookup t (w_fields w) = Some ft ->
  fs_lookup r (w_fields w) = Some fr ->
  w_fields w !! 1%nat = Some (n1, f1) ->
  ratio_in_bounds fx ft fr f1 ->
  (0 <= i < shape0 ft)%Z -> (0 <= j < levels f1)%Z ->
  data ft i j = S754_zero s ->
  exists w' fr',
    kernel w = Returned true w'
    /\ w_error w' = w_error w
    /\ fs_lookup r (w_fields w') = Some fr'
    /\ match data fr' i j with
       | S754_nan | S754_infinity _ => True
       | _ => False
       end.
Proof.
  intros Hk Hnd Hx Ht Hr H1 _ Hi Hj Hzero.
  destruct (ratio_kernels_run kernel x t r w fx ft fr n1 f1 Hk Hnd Hx Ht Hr H1)
    as (w' & d & Hrun & Hfs & Herr & Hin & _).
  exists w', (set_data d fr). split; [exact Hrun|]. split; [exact Herr|].
  rewrite Hfs. split; [by rewrite fs_lookup_update_eq, Hr|].
  cbn [data set_data]. rewrite (Hin i j Hi Hj), Hzero. apply div_by_zero.
Qed.

Lemma ratio_kernels_zero_total_mass_witness :
  exists w' fr',
    Mo.evalSpecificHumidity (MoreScenarios.humidity_world (decimal 0 1))
    = Returned true w'
    /\ w_error w' = []
    /\ fs_lookup "specific_humidity" (w_fields w') = Some fr'
    /\ match data fr' 0%Z 0%Z with
       | S754_nan | S754_infinity _ => True
       | _ => False
       end.
Proof.
  assert (0 <= 0 < 1)%Z as Hin by (split; [discriminate|reflexivity]).
  apply (ratio_kernels_zero_total_mass Mo.evalSpecificHumidity
           "m_v" "m_t" "specific_humidity"
           (MoreScenarios.humidity_world (decimal 0 1))
           (Scenarios.one_cell (decimal 5 1) ∅)
           (Scenarios.one_cell (decimal 0 1) ∅)
           (Scenarios.one_cell (decimal 0 1) ∅)
           "m_t" (Scenarios.one_cell (decimal 0 1) ∅) 0%Z 0%Z false);
    try reflexivity; try exact Hin.
  - apply elem_of_cons. by left.
  - compute_done.
  - repeat split; vm_compute; discriminate.
Defined.

(** X4.  [evalRatioToMt] checks nothing itself.  When the set lacks one of
    the three names, the call ends in the lookup failure of the first missing
    one; when the three names are there but the set has no second field, it
    ends in the failure of [fields[1]].  In both cases no field has been
    written. *)
Theorem evalRatioToMt_unvalidated w x t r :
  let w1 := {| w_fields := w_fields w;
               w_trace := (w_trace w ++ ["[evalRatioToMt()] starting ..."])%list;
               w_error := w_error w |} in
  match first_missing [x; t; r] (w_fields w) with
  | Some n => Mo.evalRatioToMt [x; t; r] w = Thrown (FieldNotFound n) w1
  | None =>
      w_fields w !! 1%nat = None ->
      Mo.evalRatioToMt [x; t; r] w = Thrown (FieldIndexOutOfRange 1) w1
  end.
Proof.
  intros w1. unfold Mo.evalRatioToMt.
  change ([x; t; r] !!! 0%nat) with x.
  change ([x; t; r] !!! 1%nat) with t.
  change ([x; t; r] !!! 2%nat) with r.
  simpl.
  repeat
    (match goal with
     | |- context [fs_has ?m (w_fields w)] =>
         destruct (fs_has m (w_fields w)) eqn:?Hhas;
         [ apply fs_has_true_inv in Hhas as [? ?]
         | apply fs_has_false_inv in Hhas ]
     end);
    try intros Hno; step;
    repeat first
      [ by erewrite bind_thrown by (by apply field_absent)
      | step ].
  erewrite bind_thrown; [reflexivity|].
  apply field_at_thrown. exact Hno.
Qed.

Lemma evalRatioToMt_unvalidated_witness :
  Mo.evalRatioToMt ["a"; "b"; "a"] MoreScenarios.single_field
  = Thrown (FieldNotFound "b")
      {| w_fields := w_fields MoreScenarios.single_field;
         w_trace := ["[evalRatioToMt()] starting ..."];
         w_error := [] |}
  /\ Mo.evalRatioToMt ["a"; "a"; "a"] MoreScenarios.single_field
     = Thrown (FieldIndexOutOfRange 1)
         {| w_fields := w_fields MoreScenarios.single_field;
            w_trace := ["[evalRatioToMt()] starting ..."];
            w_error := [] |}.
Proof.
  split.
  - exact (evalRatioToMt_unvalidated MoreScenarios.single_field "a" "b" "a").
  - exact (evalRatioToMt_unvalidated MoreScenarios.single_field "a" "a" "a"
             eq_refl).
Defined.

(** X5.  [evalSpecificHumidityFromRH_2m], on a field set that has its three
    fields, returns [true], logs no error and stores
    [relative_humidity_2m * qsat] in every cell of the product; the cells
    outside its shape and the other fields are left as they were. *)
Theorem evalSpecificHumidityFromRH_2m_product w qsat rh q2m :
  fs_lookup "qsat" (w_fields w) = Some qsat ->
  fs_lookup "relative_humidity_2m" (w_fields w) = Some rh ->
  fs_lookup "specific_humidity_at_two_meters_above_surface" (w_fields w)
    = Some q2m ->
  exists w' q2m',
    Mo.evalSpecificHumidityFromRH_2m w = Returned true w'
    /\ w_error w' = w_error w
    /\ fs_lookup "specific_humidity_at_two_meters_above_surface" (w_fields w')
       = Some q2m'
    /\ (forall i j, (0 <= i < shape0 q2m)%Z -> (0 <= j < levels q2m)%Z ->
          data q2m' i j = data rh i j * data qsat i j)
    /\ (forall i j,
          ~ ((0 <= i < shape0 q2m)%Z /\ (0 <= j < levels q2m)%Z) ->
          data q2m' i j = data q2m i j)
    /\ (forall name,
          name <> "specific_humidity_at_two_meters_above_surface" ->
          fs_lookup name (w_fields w') = fs_lookup name (w_fields w)).
Proof.
  intros Hqsat Hrh Hq.
  set (tgt := "specific_humidity_at_two_meters_above_surface").
  set (w1 := {| w_fields := w_fields w;
                w_trace := (w_trace w
                  ++ ["[evalSpecificHumidityFromRH_2m()] starting ..."])%list;
                w_error := w_error w |}).
  set (G := fun i j => data rh i j * data qsat i j).
  set (functor := fun i j : idx_t =>
      bind (view_get "relative_humidity_2m" i j) (fun r =>
      bind (view_get "qsat" i j) (fun qs =>
      view_set tgt i j (r * qs)))).
  assert (writes_cell tgt (w_fields w1) w1 G functor) as Hf.
  { intros i j d. exists (array_set d i j (G i j)). split; [|split].
    - unfold functor. do 2 cell_read. by eapply view_set_target.
    - apply array_set_eq.
    - intros. by apply array_set_ne. }
  destruct (parallelFor_on_field tgt w1 q2m G functor (functionspace q2m)
              {| conf_levels := levels q2m; include_halo := true |} Hq Hf)
    as (d & Hpar & Hin & Hout).
  eexists _, (set_data d q2m). split; [|split; [|split; [|split; [|split]]]].
  - unfold Mo.evalSpecificHumidityFromRH_2m.
    step. check_passes. do 10 step. fold tgt. fold functor. fold w1.
    erewrite bind_returned by exact Hpar. cbv beta.
    step. reflexivity.
  - reflexivity.
  - simpl. unfold tgt. by rewrite fs_lookup_update_eq, Hq.
  - intros i j Hi Hj. cbn [data set_data]. by apply Hin.
  - intros i j Hij. cbn [data set_data]. by apply Hout.
  - intros name Hne. simpl. unfold tgt. by rewrite fs_lookup_update_ne.
Qed.

Lemma evalSpecificHumidityFromRH_2m_witness :
  exists w' q2m',
    Mo.evalSpecificHumidityFromRH_2m MoreScenarios.two_metre_world
    = Returned true w'
    /\ fs_lookup "specific_humidity_at_two_meters_above_surface" (w_fields w')
       = Some q2m'
    /\ data q2m' 0%Z 0%Z = of_Z 2.
Proof.
  assert (0 <= 0 < 1)%Z as Hin by (split; [discriminate|reflexivity]).
  destruct (evalSpecificHumidityFromRH_2m_product
              MoreScenarios.two_metre_world
              (Scenarios.one_cell (of_Z 4) ∅)
              (Scenarios.one_cell (decimal 5 1) ∅)
              (Scenarios.one_cell (decimal 0 1) ∅))
    as (w' & q2m' & Hrun & _ & Hlook & Hcells & _); try reflexivity.
  exists w', q2m'. split; [exact Hrun|]. split; [exact Hlook|].
  rewrite (Hcells 0%Z 0%Z Hin Hin). vm_compute. reflexivity.
Defined.

(** X6.  Running [evalAirTemperature] a second time changes no value: after
    both runs every cell of [air_temperature] holds what it held after the
    first, and [theta] and [exner] are the fields the first run was given. *)
Theorem evalAirTemperature_twice w theta exner atemp :
  fs_lookup "theta" (w_fields w) = Some theta ->
  fs_lookup "exner" (w_fields w) = Some exner ->
  fs_lookup "air_temperature" (w_fields w) = Some atemp ->
  exists w1 w2 a1 a2,
    Mo.evalAirTemperature w = Returned true w1
    /\ Mo.evalAirTemperature w1 = Returned true w2
    /\ fs_lookup "air_temperature" (w_fields w1) = Some a1
    /\ fs_lookup "air_temperature" (w_fields w2) = Some a2
    /\ (forall i j, data a2 i j = data a1 i j)
    /\ fs_lookup "theta" (w_fields w2) = Some theta
    /\ fs_lookup "exner" (w_fields w2) = Some exner.
Proof.
  intros Hth Hex Hat.
  destruct (evalAirTemperature_product w theta exner atemp Hth Hex Hat)
    as (d1 & Hrun1 & Hin1 & Hout1).
  match type of Hrun1 with _ = Returned true ?w' => set (w1 := w') in * end.
  assert (fs_lookup "theta" (w_fields w1) = Some theta) as Hth1
    by (simpl; by rewrite fs_lookup_update_ne).
  assert (fs_lookup "exner" (w_fields w1) = Some exner) as Hex1
    by (simpl; by rewrite fs_lookup_update_ne).
  assert (fs_lookup "air_temperature" (w_fields w1) = Some (set_data d1 atemp))
    as Hat1 by (simpl; by rewrite fs_lookup_update_eq, Hat).
  destruct (evalAirTemperature_product w1 theta exner (set_data d1 atemp)
              Hth1 Hex1 Hat1) as (d2 & Hrun2 & Hin2 & Hout2).
  eexists w1, _, (set_data d1 atemp), (set_data d2 (set_data d1 atemp)).
  split; [exact Hrun1|]. split; [exact Hrun2|]. split; [exact Hat1|].
  split; [|split; [|split]].
  - simpl. by rewrite fs_lookup_update_eq, fs_lookup_update_eq, Hat.
  - intros i j. cbn [data set_data].
    destruct (decide ((0 <= i < shape0 atemp)%Z /\ (0 <= j < levels atemp)%Z))
      as [[Hi Hj]|Hno].
    + rewrite (Hin2 i j Hi Hj). by rewrite (Hin1 i j Hi Hj).
    + by rewrite (Hout2 i j Hno).
  - simpl. by rewrite !fs_lookup_update_ne.
  - simpl. by rewrite !fs_lookup_update_ne.
Qed.

Lemma evalAirTemperature_twice_witness :
  exists w1 w2 a1 a2,
    Mo.evalAirTemperature Scenarios.scenario1 = Returned true w1
    /\ Mo.evalAirTemperature w1 = Returned true w2
    /\ fs_lookup "air_temperature" (w_fields w1) = Some a1
    /\ fs_lookup "air_temperature" (w_fields w2) = Some a2
    /\ (forall i j, data a2 i j = data a1 i j)
    /\ fs_lookup "theta" (w_fields w2)
       = Some (Scenarios.one_cell (of_Z 300) ∅)
    /\ fs_lookup "exner" (w_fields w2)
       = Some (Scenarios.one_cell (decimal 95 2) ∅).
Proof.
  apply (evalAirTemperature_twice Scenarios.scenario1
           (Scenarios.one_cell (of_Z 300) ∅)
           (Scenarios.one_cell (decimal 95 2) ∅)
           (Scenarios.one_cell (decimal 0 1) ∅)); reflexivity.
Defined.

(** ** [evalAirPressureLevels] on a complete field set *)







(** ** [evalParamAParamB] on a complete field set *)












(** ** The total mass followed by a ratio kernel *)

Lemma evalTotalMassMoistAir_run w m_v m_ci m_cl m_r m_t :
  fs_lookup "m_v" (w_fields w) = Some m_v ->
  fs_lookup "m_ci" (w_fields w) = Some m_ci ->
  fs_lookup "m_cl" (w_fields w) = Some m_cl ->
  fs_lookup "m_r" (w_fields w) = Some m_r ->
  fs_lookup "m_t" (w_fields w) = Some m_t ->
  exists w' d,
    Mo.evalTotalMassMoistAir w = Returned true w'
    /\ w_fields w' = fs_update "m_t" (set_data d) (w_fields w)
    /\ (forall i j, (0 <= i < shape0 m_t)%Z -> (0 <= j < levels m_t)%Z ->
          d i j = of_Z 1 + data m_v i j + data m_ci i j + data m_cl i j
                  + data m_r i j).
Proof.
  intros Hv Hci Hcl Hr Ht.
  set (w1 := {| w_fields := w_fields w;
                w_trace := (w_trace w
                            ++ ["[evalTotalMassMoistAir()] starting ..."])%list;
                w_error := w_error w |}).
  set (G := fun i j => of_Z 1 + data m_v i j + data m_ci i j + data m_cl i j
                       + data m_r i j).
  set (functor := fun i j : idx_t =>
      bind (view_get "m_v" i j) (fun v =>
      bind (view_get "m_ci" i j) (fun ci =>
      bind (view_get "m_cl" i j) (fun cl =>
      bind (view_get "m_r" i j) (fun r =>
      view_set "m_t" i j (of_Z 1 + v + ci + cl + r)))))).
  assert (writes_cell "m_t" (w_fields w1) w1 G functor) as Hf.
  { intros i j d. exists (array_set d i j (G i j)). split; [|split].
    - unfold functor. do 4 cell_read. by eapply view_set_target.
    - apply array_set_eq.
    - intros. by apply array_set_ne. }
  destruct (parallelFor_on_field "m_t" w1 m_t G functor (functionspace m_t)
              {| conf_levels := levels m_t; include_halo := true |} Ht Hf)
    as (d & Hpar & Hin & Hout).
  eexists _, d. split; [|split].
  - unfold Mo.evalTotalMassMoistAir.
    step. check_passes. do 14 step. fold functor. fold w1.
    erewrite bind_returned by exact Hpar. cbv beta.
    step. reflexivity.
  - reflexivity.
  - intros i j Hi Hj. by apply Hin.
Qed.

(** Replacing the buffer of a field keeps the names, the order and the
    number of levels of the fields of a set. *)
Lemma names_fs_update name d fs :
  names (fs_update name (set_data d) fs) = names fs.
Proof.
  unfold names. induction fs as [|[k f] rest IH]; [done|]. simpl.
  destruct (decide (k = name)); simpl; [done|]. f_equal. exact IH.
Qed.

Lemma fs_update_at name d (fs : FieldSet) (k : nat) n f :
  fs !! k = Some (n, f) ->
  exists f', fs_update name (set_data d) fs !! k = Some (n, f')
             /\ levels f' = levels f.
Proof.
  revert k. induction fs as [|[n0 f0] rest IH]; intros k Hk; [done|]. simpl.
  destruct (decide (n0 = name)) as [->|Hne].
  - destruct k as [|k]; simpl in *.
    + injection Hk as -> ->. by eexists.
    + by exists f.
  - destruct k as [|k]; simpl in *.
    + injection Hk as -> ->. by eexists.
    + by apply IH.
Qed.

(** X12.  [evalTotalMassMoistAir] followed by one of the four ratio kernels,
    on a field set with distinct names that holds the four masses, [m_t] and
    the product of the kernel, where the mass, [m_t] and the product have the
    cells of the loop of the ratio: both calls return [true], and the product
    holds [m_x / (1 + m_v + m_ci + m_cl + m_r)] in every cell whose
    horizontal index is in the function space of [m_t] and whose level is
    below the number of levels of the second field of the set; nothing is
    stored outside the shape of the product. *)
Theorem total_mass_then_ratio kernel x t r w m_v m_ci m_cl m_r m_t fx fr
    n1 f1 :
  (kernel, (x, t, r)) ∈ ratio_kernels ->
  NoDup (names (w_fields w)) ->
  fs_lookup "m_v" (w_fields w) = Some m_v ->
  fs_lookup "m_ci" (w_fields w) = Some m_ci ->
  fs_lookup "m_cl" (w_fields w) = Some m_cl ->
  fs_lookup "m_r" (w_fields w) = Some m_r ->
  fs_lookup "m_t" (w_fields w) = Some m_t ->
  fs_lookup x (w_fields w) = Some fx ->
  fs_lookup r (w_fields w) = Some fr ->
  w_fields w !! 1%nat = Some (n1, f1) ->
  ratio_in_bounds fx m_t fr f1 ->
  exists w1 w2 fr',
    Mo.evalTotalMassMoistAir w = Returned true w1
    /\ kernel w1 = Returned true w2
    /\ fs_lookup r (w_fields w2) = Some fr'
    /\ (forall i j, (0 <= i < shape0 m_t)%Z -> (0 <= j < levels f1)%Z ->
          data fr' i j
          = data fx i j
            / (of_Z 1 + data m_v i j + data m_ci i j + data m_cl i j
               + data m_r i j))
    /\ (forall i j, ~ ((0 <= i < shape0 fr)%Z /\ (0 <= j < levels fr)%Z) ->
          data fr' i j = data fr i j).
Proof.
  intros Hk Hnd Hv Hci Hcl Hr Ht Hx Hfr H1 Hb.
  assert (t = "m_t" /\ x <> "m_t" /\ r <> "m_t") as (-> & Hxt & Hrt).
  { unfold ratio_kernels in Hk.
    repeat (apply elem_of_cons in Hk as [Hk|Hk]);
      [..|by apply elem_of_nil in Hk];
      injection Hk as -> -> -> ->; done. }
  destruct (evalTotalMassMoistAir_run w m_v m_ci m_cl m_r m_t
              Hv Hci Hcl Hr Ht) as (w1 & d & Hrun1 & Hfs1 & Hsum).
  destruct (fs_update_at "m_t" d _ _ _ _ H1) as (f1' & H1' & Hlev).
  destruct (ratio_kernels_run kernel x "m_t" r w1 fx (set_data d m_t) fr
              n1 f1' Hk)
    as (w2 & d2 & Hrun2 & Hfs2 & _ & Hin & Hout).
  - by rewrite Hfs1, names_fs_update.
  - by rewrite Hfs1, fs_lookup_update_ne.
  - by rewrite Hfs1, fs_lookup_update_eq, Ht.
  - by rewrite Hfs1, fs_lookup_update_ne.
  - by rewrite Hfs1.
  - exists w1, w2, (set_data d2 fr). split; [exact Hrun1|].
    split; [exact Hrun2|]. split.
    + rewrite Hfs2, fs_lookup_update_eq.
      by rewrite Hfs1, fs_lookup_update_ne, Hfr.
    + split.
      * intros i j Hi Hj. cbn [data set_data].
        rewrite Hin; [|exact Hi|by rewrite Hlev].
        cbn [data set_data]. rewrite (Hsum i j Hi); [done|].
        unfold ratio_in_bounds in Hb. lia.
      * intros i j Hno. cbn [data set_data]. apply Hout. rewrite Hlev.
        change (shape0 (set_data d m_t)) with (shape0 m_t).
        by eapply ratio_in_bounds_outside.
Qed.

Lemma total_mass_then_ratio_witness :
  exists w1 w2 q',
    Mo.evalTotalMassMoistAir MoreScenarios.moist_air_world = Returned true w1
    /\ Mo.evalSpecificHumidity w1 = Returned true w2
    /\ fs_lookup "specific_humidity" (w_fields w2) = Some q'
    /\ data q' 0%Z 0%Z = decimal 25 2 / decimal 19375 4.
Proof.
  assert (0 <= 0 < 1)%Z as Hin by (split; [discriminate|reflexivity]).
  destruct (total_mass_then_ratio Mo.evalSpecificHumidity
              "m_v" "m_t" "specific_humidity"
              MoreScenarios.moist_air_world
              (Scenarios.one_cell (decimal 25 2) ∅)
              (Scenarios.one_cell (decimal 5 1) ∅)
              (Scenarios.one_cell (decimal 125 3) ∅)
              (Scenarios.one_cell (decimal 625 4) ∅)
              (Scenarios.one_cell (decimal 0 1) ∅)
              (Scenarios.one_cell (decimal 25 2) ∅)
              (Scenarios.one_cell (decimal 0 1) ∅)
              "m_ci" (Scenarios.one_cell (decimal 5 1) ∅))
    as (w1 & w2 & q' & Hrun1 & Hrun2 & Hlook & Hcells & _); try reflexivity.
  { apply elem_of_cons. by left. }
  { compute_done. }
  { repeat split; vm_compute; discriminate. }
  exists w1, w2, q'. split; [exact Hrun1|]. split; [exact Hrun2|].
  split; [exact Hlook|].
  rewrite (Hcells 0%Z 0%Z Hin Hin).
  vm_compute. reflexivity.
Defined.

End MoreKernelFacts.
